(** * Montemurro-Zanette entropy keywords: [gensim/summarization/mz_entropy.py]

    A shallow embedding of [mz_keywords], [count_freqs_by_blocks] and the
    analytic entropy closure, with the properties that its specification states
    checked against it.

    Conventions of the embedding.
    - Python [int] is [Z]; a numpy double is Rocq's primitive binary64
      [float], so [+], [*], [/], [<] and the special values behave as IEEE 754
      prescribes and every definition below evaluates.
    - The count matrix holds integers, which numpy stores as doubles. An
      integer below 2^53 and its double determine each other and the sums of
      such doubles are exact, so the entries, the column sums [totals] and
      [n_words] are kept in [Z], and [double] converts them where the source
      divides or takes a logarithm.
    - [double z] is the double nearest to the integer [z], ties to even, as
      Python converts an [int] and numpy casts one. The integers of the
      arithmetic ([blocksize] and the totals) enter it as their doubles:
      below 2^53, where an integer, its successor and their doubles
      determine each other, this is what the source computes. An [int]
      whose nearest double is not finite has no float at all, and the
      conversion that line 126 asks of [blocksize] is an [OverflowError].
    - [numpy.log], [numpy.log2], [numpy.exp] and [scipy.special.betaln] are
      library routines outside the repository: they are the fields of the
      class [Libm], and whatever is proved about the scorer holds for every
      instance unless a statement names the values it relies on.
    - A Python exception is the [Raise] branch of the result type [py].
    - A word is a [string], compared character by character as Python
      compares code points.
    - The tokenizer ([to_unicode] followed by [_tokenize_by_word]) lives in
      other modules; [mz_keywords] takes it as an argument. *)

From Stdlib Require Import ZArith List String Ascii Lia Bool Permutation.
From Stdlib Require Import Sorting.Sorted Structures.OrderedTypeEx.
From Stdlib Require Import Floats.
From stdpp Require Import gmap strings list fin_maps.

(** ** Exceptions and the result monad *)

(** The exceptions the embedded code can meet. [EmptyDocumentError] is the
    named failure that the specification asks for; it is listed so that statements
    about it can be written down. *)
Inductive exn : Set :=
| ValueError
| KeyError
| IndexError
| AttributeError
| OverflowError
| EmptyDocumentError.

Inductive py (A : Type) : Type :=
| Raise (e : exn)
| Return (v : A).
Arguments Raise {A} e.
Arguments Return {A} v.

#[global] Instance py_ret : MRet py := fun A v => Return v.

#[global] Instance py_bind : MBind py := fun A B f m =>
  match m with
  | Raise e => Raise e
  | Return v => f v
  end.

(** A loop that threads an accumulator and stops at the first exception. *)
Fixpoint foldM {A B : Type} (f : B -> A -> py B) (b : B) (l : list A) : py B :=
  match l with
  | [] => Return b
  | a :: l' => b' ← f b a; foldM f b' l'
  end.

(** A loop that appends one result per element. *)
Fixpoint forM {A B : Type} (f : A -> py B) (l : list A) : py (list B) :=
  match l with
  | [] => Return []
  | a :: l' => b ← f a; bs ← forM f l'; Return (b :: bs)
  end.

(** ** Python built-ins used by the module *)

Module Py.

(** [len(range(start, stop, step))] for a non-zero step. *)
Definition range_len (start stop step : Z) : nat :=
  if (0 <? step)%Z then
    if (start <? stop)%Z then Z.to_nat ((stop - start - 1) / step + 1) else 0
  else
    if (stop <? start)%Z then Z.to_nat ((start - stop - 1) / (- step) + 1) else 0.

(** [range(start, stop, step)]: a zero step is a [ValueError]. *)
Definition range (start stop step : Z) : py (list Z) :=
  if (step =? 0)%Z then Raise ValueError
  else Return (map (fun k => (start + Z.of_nat k * step)%Z)
                   (seq 0 (range_len start stop step))).

(** A slice bound brought into [0 .. len]. *)
Definition clamp (len i : Z) : nat :=
  Z.to_nat (if (i <? 0)%Z then Z.max (i + len) 0 else Z.min i len).

(** [l[lo:hi]]. *)
Definition slice {A : Type} (l : list A) (lo hi : Z) : list A :=
  let len := Z.of_nat (length l) in
  firstn (clamp len hi - clamp len lo) (skipn (clamp len lo) l).

(** [enumerate(l)]. *)
Definition enumerate {A : Type} (l : list A) : list (nat * A) :=
  zip (seq 0 (length l)) l.

(** Insertion of [x] in a list ordered by [lt], after the elements that
    are smaller and before the first that is not: [x] is older than all
    of [l] in the order of the input. *)
Fixpoint insert {A : Type} (lt : A -> A -> bool) (x : A) (l : list A) : list A :=
  match l with
  | [] => [x]
  | y :: l' => if lt y x then y :: insert lt x l' else x :: y :: l'
  end.

(** [sorted(l)] and [l.sort()]: the stable sort by [<]. CPython runs
    timsort; on elements that [<] orders consistently the stable sorted
    arrangement is unique, so this insertion sort returns the same list. *)
Definition sort {A : Type} (lt : A -> A -> bool) (l : list A) : list A :=
  fold_right (insert lt) [] l.

(** [set(l)], as the list of the distinct elements. *)
Definition set (l : list string) : list string := nodup string_dec l.

(** [sep.join(l)]. *)
Fixpoint join (sep : string) (l : list string) : string :=
  match l with
  | [] => EmptyString
  | [x] => x
  | x :: l' => (x ++ sep ++ join sep l')%string
  end.

(** [s.split(c)] for a one-character separator, with the piece being
    read kept in [cur]. *)
Fixpoint split_from (c : ascii) (cur : string) (s : string) : list string :=
  match s with
  | EmptyString => [cur]
  | String a s' =>
      if Ascii.eqb a c then cur :: split_from c EmptyString s'
      else split_from c (cur ++ String a EmptyString)%string s'
  end.

Definition split (c : ascii) (s : string) : list string :=
  split_from c EmptyString s.

End Py.

(** ** The block frequency counter *)

(** [{word: i for i, word in enumerate(vocab)}]: a later position of a word
    replaces an earlier one. *)
Definition word2ind (vocab : list string) : gmap string nat :=
  fold_left (fun d iw => <[iw.2 := iw.1]> d) (Py.enumerate vocab) ∅.

(** [counts[word2ind[word]] += 1]. *)
Definition count_word (d : gmap string nat) (counts : list Z) (word : string)
  : py (list Z) :=
  match d !! word with
  | None => Raise KeyError
  | Some j =>
      match counts !! j with
      | None => Raise IndexError
      | Some c => Return (<[j := (c + 1)%Z]> counts)
      end
  end.

(** The body of the outer loop: the counts of one block. *)
Definition count_block (d : gmap string nat) (n_vocab : nat) (block : list string)
  : py (list Z) :=
  foldM (count_word d) (repeat 0%Z n_vocab) block.

(** The rows of [np.array(word_counts, dtype=np.double)]. When the loop
    appends nothing, the array has shape [(0,)] and is the empty list here. *)
Definition count_freqs_by_blocks (words vocab : list string) (blocksize : Z)
  : py (list (list Z)) :=
  let d := word2ind vocab in
  starts ← Py.range 0 (Z.of_nat (length words)) blocksize;
  forM (fun i => count_block d (length vocab) (Py.slice words i (i + blocksize))) starts.

(** ** numpy on doubles *)

(** The double of an integer: the nearest one, ties to even (exact below
    2^53), and an infinity where the nearest one is not finite. *)
Definition double (z : Z) : float :=
  SF2Prim (binary_normalize prec emax z 0 false).

(** Whether [float(z)] is an [OverflowError]: the integers from
    [2^1024 - 2^970] on, half way between the largest finite double and
    [2^1024], round to no finite double. *)
Definition float_overflows (z : Z) : bool :=
  (2 ^ 1024 - 2 ^ 970 <=? Z.abs z)%Z.

(** The largest finite double, [numpy.finfo(float).max]. *)
Definition DBL_MAX : float := Eval cbv in 0x1.fffffffffffffp+1023%float.

(** [np.nan_to_num] on one entry. *)
Definition nan_to_num (x : float) : float :=
  if PrimFloat.is_nan x then 0%float
  else if PrimFloat.eqb x infinity then DBL_MAX
  else if PrimFloat.eqb x neg_infinity then PrimFloat.opp DBL_MAX
  else x.

(** [a.sum()] on a vector: the entries added in index order, the zero for
    none. numpy may associate a long float64 sum differently; the sum of an
    object array ([elements] in the analytic entropy) is taken in this
    order, and so is every sum that a statement below evaluates. *)
Definition np_sum {A : Type} (add : A -> A -> A) (zero : A) (l : list A) : A :=
  match l with
  | [] => zero
  | x :: l' => fold_left add l' x
  end.

(** [a.sum(axis=0)] on a matrix with at least one row: the rows added
    entry by entry, in order. On integers, and on doubles that are
    integers below 2^53, every order gives the same sum. On other
    doubles numpy is free to associate a long column in another way (it
    adds a single column of eight entries or more pairwise), and the last
    bit of such a sum may then differ from the one computed here; what is
    stated below about sums of doubles concerns matrices of fewer than
    eight rows or sums of zeros, or holds for every vector of scores. *)
Definition sum_axis0 {A : Type} (add : A -> A -> A) (rows : list (list A)) : list A :=
  match rows with
  | [] => []
  | r :: rows' => fold_left (zip_with add) rows' r
  end.

(** [np.arange(lo, hi, dtype=np.double)]. *)
Definition arange (lo hi : Z) : list float :=
  map (fun k => double (lo + Z.of_nat k)) (seq 0 (Z.to_nat (hi - lo))).

(** ** The library routines *)

(** [numpy.log], [numpy.log2], [numpy.exp] and [scipy.special.betaln]. *)
Class Libm : Type := {
  log : float -> float;
  log2 : float -> float;
  exp : float -> float;
  betaln : float -> float -> float
}.

(** ** The marginal probability and the analytic entropy *)

Section Analytic.
Context {M : Libm}.

(** [__log_combinations_inner(n, m)]. *)
Definition log_combinations_inner (n m : float) : float :=
  (- (log (n + 1) + betaln (n - m + 1) (m + 1)))%float.

Definition log_combinations : float -> float -> float := log_combinations_inner.

(** [__marginal_prob(blocksize, n_words)], applied to [n] and [m]. The
    operands [n] and [blocksize] are Python integers and enter the
    arithmetic as their doubles. *)
Definition marginal_prob (blocksize n_words n : Z) (m : float) : float :=
  exp (log_combinations (double n) m
       + log_combinations (double n_words - double n) (double blocksize - m)
       - log_combinations (double n_words) (double blocksize))%float.

(** Line 145: one entry of [elements]. *)
Definition element (blocksize n_words n : Z) (p m : float) : float :=
  ((p * log2 p) * marginal_prob blocksize n_words n m)%float.

(** Lines 142 to 146, the body of [analytic_entropy] below the cache
    test. An empty [elements] sums to the integer [0]. *)
Definition analytic_entropy_compute (blocksize n_blocks n_words n : Z) : float :=
  let m := arange 1 (Z.min blocksize n + 1) in
  let p := map (fun mi => (mi / double n)%float) m in
  let elements := zip_with (element blocksize n_words n) p m in
  match elements with
  | [] => double (- n_blocks * 0)
  | _ => (double (- n_blocks) * np_sum PrimFloat.add 0 elements)%float
  end.

(** [analytic_entropy(n)] with the dictionary [cache] as state: the
    result and the cache after the call. The argument is an entry of
    [totals], and [int(n)] is the integer it holds. *)
Definition analytic_entropy (blocksize n_blocks n_words : Z)
    (cache : gmap Z float) (n : Z) : float * gmap Z float :=
  match cache !! n with
  | Some v => (v, cache)
  | None =>
      let result := analytic_entropy_compute blocksize n_blocks n_words n in
      (result, <[n := result]> cache)
  end.

(** The cache of a fresh closure: [{1: 0.0}]. *)
Definition cache0 : gmap Z float := {[ 1%Z := 0%float ]}.

(** The ufunc [np.frompyfunc(analytic_entropy, 1, 1)] over a vector, from
    a given cache: the entries are visited in index order. *)
Fixpoint analytic_from (blocksize n_blocks n_words : Z)
    (cache : gmap Z float) (totals : list Z) : list float * gmap Z float :=
  match totals with
  | [] => ([], cache)
  | n :: totals' =>
      let r := analytic_entropy blocksize n_blocks n_words cache n in
      let rs := analytic_from blocksize n_blocks n_words r.2 totals' in
      (r.1 :: rs.1, rs.2)
  end.

(** [__analytic_entropy(blocksize, n_blocks, n_words)(totals)]. *)
Definition analytic (blocksize n_blocks n_words : Z) (totals : list Z) : list float :=
  (analytic_from blocksize n_blocks n_words cache0 totals).1.

(** ** The keyword scorer *)

(** Lines 64 to 66: the observed term of every word. *)
Definition observed_entropy (word_counts : list (list Z)) (totals : list Z)
  : list float :=
  let p := map (fun row => zip_with (fun c t => (double c / double t)%float) row totals)
               word_counts in
  let log_p := map (map log2) p in
  sum_axis0 PrimFloat.add
    (map (map nan_to_num) (zip_with (zip_with PrimFloat.mul) p log_p)).

(** Lines 61 to 70 of [mz_keywords] on a matrix with at least one row:
    the vector [h] that the threshold is applied to. *)
Definition entropy_scores (word_counts : list (list Z)) (blocksize : Z)
    (weighted : bool) : list float :=
  let n_blocks := Z.of_nat (length word_counts) in
  let totals := sum_axis0 Z.add word_counts in
  let n_words := np_sum Z.add 0%Z totals in
  let h := observed_entropy word_counts totals in
  let h := zip_with PrimFloat.add h (analytic blocksize n_blocks n_words totals) in
  if weighted
  then zip_with PrimFloat.mul h
         (map (fun t => (double t / double n_words)%float) totals)
  else h.

End Analytic.

(** The [threshold] argument: the string ['auto'] or a number. *)
Inductive threshold_arg : Set :=
| Auto
| Numeric (t : float).

(** Lines 71 and 72. *)
#[warnings="-inexact-float"]
Definition resolve_threshold (threshold : threshold_arg) (n_blocks : Z) : float :=
  match threshold with
  | Auto => (double n_blocks / (double n_blocks + 1.0) + 1.0e-8)%float
  | Numeric t => t
  end.

(** Lines 73 and 74: the pairs above the threshold, sorted by the key
    [-score]. *)
Definition select (vocab : list string) (h : list float) (threshold : float)
  : list (string * float) :=
  Py.sort (fun a b => PrimFloat.ltb (- a.2) (- b.2))
          (List.filter (fun ws => PrimFloat.ltb threshold ws.2) (zip vocab h)).

(** What [mz_keywords] returns. *)
Inductive output : Type :=
| Scored (l : list (string * float))
| Words (l : list string)
| Joined (s : string).

Definition newline : ascii := "010"%char.

(** Lines 75 to 78. *)
Definition format (weights : list (string * float)) (scores split : bool) : output :=
  if scores then Scored weights
  else if split then Words (map fst weights)
  else Joined (Py.join (String newline EmptyString) (map fst weights)).

(** Whether [analytic(totals)] calls [marginal_prob]: [analytic_entropy]
    does for a total [n] that the cache does not hold, when the vector
    [m] of line 142 is not empty. The cache of a fresh closure holds 1,
    and a total that it has come to hold has been through the call. *)
Definition calls_marginal (blocksize : Z) (totals : list Z) : bool :=
  existsb (fun n => negb (n =? 1)%Z && (1 <=? Z.min blocksize n)%Z) totals.

(** [sorted(set(words))]. *)
Definition vocabulary (words : list string) : list string :=
  Py.sort String.ltb (Py.set words).

Section Scorer.
Context {M : Libm}.

(** [mz_keywords] from line 59 on, given the list [words] of line 58.

    When [words] is empty, or [blocksize] is negative, the loop of
    [count_freqs_by_blocks] appends nothing and [np.array([])] has shape
    [(0,)]: [totals] is then a numpy scalar, the ufunc [analytic] hands
    back the bare Python integer [0] that [analytic_entropy] returns for
    it, and [.astype] on line 68 is an [AttributeError].

    Otherwise [analytic(totals)] on line 68 is the first place where the
    integer [blocksize] meets a float: [blocksize - m] on line 126, when
    [marginal_prob] is called. When it is called and [blocksize] has no
    finite double, the call fails with the [OverflowError] of the
    conversion. *)
Definition mz_keywords_words (words : list string) (blocksize : Z)
    (scores split weighted : bool) (threshold : threshold_arg) : py output :=
  let vocab := vocabulary words in
  word_counts ← count_freqs_by_blocks words vocab blocksize;
  match word_counts with
  | [] => Raise AttributeError
  | _ =>
      let n_blocks := Z.of_nat (length word_counts) in
      let totals := sum_axis0 Z.add word_counts in
      if calls_marginal blocksize totals && float_overflows blocksize
      then Raise OverflowError
      else
        let h := entropy_scores word_counts blocksize weighted in
        let threshold := resolve_threshold threshold n_blocks in
        Return (format (select vocab h threshold) scores split)
  end.

(** [mz_keywords], with the tokenizer of lines 57 and 58 as [tokenize]. *)
Definition mz_keywords (tokenize : string -> list string) (text : string)
    (blocksize : Z) (scores split weighted : bool) (threshold : threshold_arg)
  : py output :=
  mz_keywords_words (tokenize text) blocksize scores split weighted threshold.

End Scorer.

(** ** Notions used in the statements *)

(** The ceiling of [a / b] for a positive [b] ([/] on [Z] is the floor). *)
Definition ceil_div (a b : Z) : Z := (- ((- a) / b))%Z.

(** The sum of a list of integers. *)
Definition Zsum (l : list Z) : Z := foldr Z.add 0%Z l.

(** Column [j] of a matrix. *)
Definition column (rows : list (list Z)) (j : nat) : list Z :=
  map (fun r => default 0%Z (r !! j)) rows.

(** Block [k] of a token sequence cut every [b] tokens. *)
Definition block_at (words : list string) (b k : nat) : list string :=
  firstn b (skipn (k * b) words).

(** What the inner loop of [count_freqs_by_blocks] has established once it
    has counted [block]: one entry per vocabulary word, one unit per token,
    and, in a vocabulary of distinct words, entry [j] counting word [j]. *)
Definition counted (vocab block : list string) (counts : list Z) : Prop :=
  length counts = length vocab /\
  Zsum counts = Z.of_nat (length block) /\
  (List.NoDup vocab -> forall j w, vocab !! j = Some w ->
     counts !! j = Some (Z.of_nat (count_occ string_dec block w))).

(** Two elements in the order of a stable sort by [lt]: the first is
    smaller, or they are tied and in the order [before] of the input. *)
Definition stable_order {A : Type} (lt : A -> A -> bool) (before : A -> A -> Prop)
    (a b : A) : Prop :=
  lt a b = true \/ (lt b a = false /\ before a b).

(** The place of a double in the order of [<]: the sign class, then the
    exponent and the mantissa, compared in this order; [nan] has none, and
    the two zeros share theirs. *)
Definition SFrank (f : spec_float) : option (Z * Z * Z) :=
  match f with
  | S754_nan => None
  | S754_zero _ => Some (0, 0, 0)%Z
  | S754_infinity s => Some (if s then (-2) else 2, 0, 0)%Z
  | S754_finite s m e => Some (if s then (-1, - e, - Z.pos m) else (1, e, Z.pos m))%Z
  end.

Definition rank (x : float) : option (Z * Z * Z) := SFrank (Prim2SF x).

Definition lt3 (a b : Z * Z * Z) : Prop :=
  (a.1.1 < b.1.1 \/
   (a.1.1 = b.1.1 /\ (a.1.2 < b.1.2 \/ (a.1.2 = b.1.2 /\ a.2 < b.2))))%Z.

(** The integers [1], ..., [k]. *)
Definition Zseq1 (k : Z) : list Z :=
  map (fun i => (1 + Z.of_nat i)%Z) (seq 0 (Z.to_nat k)).

(** What a call of [analytic_entropy] on [n] returns when every entry of
    the cache was put there by the function itself: the special case, or
    the computed value. *)
Definition analytic_value {M : Libm} (blocksize n_blocks n_words n : Z) : float :=
  if (n =? 1)%Z then 0%float
  else analytic_entropy_compute blocksize n_blocks n_words n.

(** A cache of one closure: the special case is present, and the other
    entries are computed values. *)
Definition cache_ok {M : Libm} (blocksize n_blocks n_words : Z)
    (cache : gmap Z float) : Prop :=
  cache !! 1%Z = Some 0%float /\
  forall k v, cache !! k = Some v -> v = analytic_value blocksize n_blocks n_words k.

(** The formula of section 4.3 of the specification, read literally: the
    sum over [m] from 1 to [min(B, n)] of [-n_blocks * (p * log2(p)) * P(m)]
    with [p = m / B], and [0.0] for [n = 1]. *)
Definition analytic_entropy_spec {M : Libm} (blocksize n_blocks n_words n : Z) : float :=
  if (n =? 1)%Z then 0%float
  else
    np_sum PrimFloat.add 0%float
      (map (fun m =>
              let p := (double m / double blocksize)%float in
              (double (- n_blocks) * (p * log2 p)
               * marginal_prob blocksize n_words n (double m))%float)
           (Zseq1 (Z.min blocksize n))).

(** ** A table of library values *)

Fixpoint table1 (t : list (float * float)) (x : float) : float :=
  match t with
  | [] => nan
  | (a, v) :: t' => if PrimFloat.eqb x a then v else table1 t' x
  end.

Fixpoint table2 (t : list (float * float * float)) (x y : float) : float :=
  match t with
  | [] => nan
  | (a, b, v) :: t' =>
      if PrimFloat.eqb x a && PrimFloat.eqb y b then v else table2 t' x y
  end.

(** The library routines at the arguments that the examples below reach,
    and [nan] elsewhere. The logarithms of powers of two, [log(1)],
    [exp(0)], [exp(-inf)], [betaln(1, 1)] and the pole [betaln(0, 2)] are
    the exact values; the other entries are the nearest doubles, and the
    examples use of them only that they are finite. *)
#[global, warnings="-inexact-float"]
Instance numpy_table : Libm := {|
  log := table1
    [(1, 0); (3, 1.0986122886681098); (9, 2.1972245773362196)]%float;
  log2 := table1
    [(1, 0); (0.5, -1); (0.25, -2); (0.125, -3); (0, neg_infinity)]%float;
  exp := table1
    [(0, 1); (neg_infinity, 0)]%float;
  betaln := table2
    [(1, 1, 0); (0, 2, infinity);
     (2, 2, -1.791759469228055); (1, 3, -1.0986122886681098);
     (7, 3, -5.529429087511423); (8, 2, -4.276666119016055)]%float
|}.

(** The order of the ranked pairs: the later pair has a smaller score, or
    the scores are equal and its word is the later one. *)
Definition ranked (a b : string * float) : Prop :=
  PrimFloat.ltb b.2 a.2 = true \/
  (PrimFloat.eqb a.2 b.2 = true /\ String_as_OT.lt a.1 b.1).

(** A string without the character [c]. *)
Definition free_of (c : ascii) (s : string) : Prop :=
  ~ In c (list_ascii_of_string s).

(** ** Notions used in the further properties *)

(** The tokens of [block] that [word2ind] sends to column [j]. *)
Definition sent_to (vocab : list string) (j : nat) (block : list string) : list string :=
  List.filter (fun x => bool_decide (word2ind vocab !! x = Some j)) block.

(** A double that is [0.0] or [-0.0]. *)
Definition is_zero (x : float) : Prop := exists s, Prim2SF x = S754_zero s.

(** One entry of the matrix that line 66 sums: [nan_to_num(p * log2(p))]
    for [p = c / t]. *)
Definition observed_term {M : Libm} (c t : Z) : float :=
  let p := (double c / double t)%float in nan_to_num (p * log2 p).

(** * Properties *)

(** ** Loops in the result monad *)

Lemma bind_Return {A B : Type} (m : py A) (f : A -> py B) (b : B) :
  (m ≫= f) = Return b -> exists a, m = Return a /\ f a = Return b.
Proof. destruct m as [e|a]; simpl; [discriminate | eauto]. Qed.


(** A loop whose body keeps an invariant and never raises returns, and the
    invariant holds at the end. *)
Lemma foldM_invariant {A B : Type} (f : B -> A -> py B) (I : B -> list A -> Prop)
    (P : A -> Prop) :
  (forall b done a, I b done -> P a ->
     exists b', f b a = Return b' /\ I b' (done ++ [a])) ->
  forall l done b, I b done -> Forall P l ->
    exists b', foldM f b l = Return b' /\ I b' (done ++ l).
Proof.
  intros Hstep l. induction l as [|a l IH]; intros done b Hb Hl.
  - exists b. rewrite app_nil_r. auto.
  - inversion Hl as [|? ? Ha Hl']; subst.
    destruct (Hstep b done a Hb Ha) as (b' & Hf & Hb').
    destruct (IH (done ++ [a]) b' Hb' Hl') as (b'' & Hfold & Hb'').
    exists b''. simpl. rewrite Hf. simpl. rewrite <- app_assoc in Hb''. auto.
Qed.

Lemma forM_Forall2 {A B : Type} (f : A -> py B) (R : A -> B -> Prop) (l : list A) :
  Forall (fun a => exists b, f a = Return b /\ R a b) l ->
  exists bs, forM f l = Return bs /\ Forall2 R l bs.
Proof.
  induction 1 as [|a l (b & Hf & Hr) _ (bs & Hm & Hbs)].
  - exists []. split; [reflexivity | constructor].
  - exists (b :: bs). simpl. rewrite Hf. simpl. rewrite Hm. simpl.
    split; [reflexivity | constructor; assumption].
Qed.



(** ** [range] and slices *)

(** The ceiling of [a / b] for a positive [b]. *)
Lemma ceil_div_bounds (a b : Z) :
  (0 < b)%Z -> ((ceil_div a b - 1) * b < a <= ceil_div a b * b)%Z.
Proof.
  intros Hb. unfold ceil_div.
  pose proof (Z.div_mod (- a) b ltac:(lia)) as Hdm.
  pose proof (Z.mod_pos_bound (- a) b Hb). nia.
Qed.

Lemma range_len_ceil (len b : Z) :
  (0 <= len)%Z -> (0 < b)%Z -> Z.of_nat (Py.range_len 0 len b) = ceil_div len b.
Proof.
  intros Hlen Hb. unfold Py.range_len.
  destruct (Z.ltb_spec 0 b) as [_|]; [|lia].
  pose proof (ceil_div_bounds len b Hb) as Hc.
  destruct (Z.ltb_spec 0 len) as [Hpos|Hz].
  - replace (len - 0 - 1)%Z with (len - 1)%Z by lia.
    assert (((len - 1) / b + 1 = ceil_div len b)%Z) as <-.
    { pose proof (Z.div_mod (len - 1) b ltac:(lia)).
      pose proof (Z.mod_pos_bound (len - 1) b Hb). nia. }
    rewrite Z2Nat.id; [reflexivity|].
    pose proof (Z.div_pos (len - 1) b ltac:(lia) Hb). lia.
  - assert (len = 0%Z) as -> by lia. simpl. nia.
Qed.

Lemma range_blocks (len b : Z) :
  (0 < b)%Z ->
  Py.range 0 len b =
    Return (map (fun k => (Z.of_nat k * b)%Z) (seq 0 (Py.range_len 0 len b))).
Proof.
  intros Hb. unfold Py.range. destruct (Z.eqb_spec b 0) as [|_]; [lia|].
  reflexivity.
Qed.

(** The slice that the loop takes at the start of block [k]. *)
Lemma slice_block {A : Type} (l : list A) (k : nat) (b : Z) :
  (0 < b)%Z ->
  Py.slice l (Z.of_nat k * b) (Z.of_nat k * b + b) =
    firstn (Z.to_nat b) (skipn (k * Z.to_nat b) l).
Proof.
  intros Hb. unfold Py.slice, Py.clamp.
  set (len := Z.of_nat (length l)).
  destruct (Z.ltb_spec (Z.of_nat k * b) 0) as [|_]; [nia|].
  destruct (Z.ltb_spec (Z.of_nat k * b + b) 0) as [|_]; [nia|].
  assert (k * Z.to_nat b = Z.to_nat (Z.of_nat k * b)) as Hk by nia.
  destruct (Z.le_gt_cases len (Z.of_nat k * b)) as [Hout|Hin].
  - rewrite !Z.min_r by lia. rewrite Hk.
    rewrite !skipn_all2 by (subst len; lia).
    rewrite !firstn_nil. reflexivity.
  - rewrite (Z.min_l (Z.of_nat k * b)) by lia. rewrite Hk.
    set (i := Z.to_nat (Z.of_nat k * b)).
    destruct (Z.le_gt_cases (Z.of_nat k * b + b) len) as [Hfull|Hlast].
    + rewrite Z.min_l by lia. f_equal. subst i. lia.
    + rewrite Z.min_r by lia.
      rewrite (firstn_all2 (n := Z.to_nat b)); [|rewrite length_skipn; subst len i; lia].
      apply firstn_all2. rewrite length_skipn. subst len i. lia.
Qed.

(** The blocks, one after the other, are the token sequence. *)
Lemma firstn_blocks (l : list string) (b n : nat) :
  concat (block_at l b <$> seq 0 n) = firstn (n * b) l.
Proof.
  induction n as [|n IH].
  - reflexivity.
  - rewrite seq_S, fmap_app, concat_app, IH. simpl. rewrite app_nil_r.
    unfold block_at.
    rewrite <- (firstn_skipn (n * b) (firstn (b + n * b) l)) at 1.
    rewrite firstn_firstn, Nat.min_l by lia.
    f_equal. rewrite skipn_firstn_comm. f_equal. lia.
Qed.

(** ** The dictionary [word2ind] *)

Lemma enumerate_snoc {A : Type} (l : list A) (x : A) :
  Py.enumerate (l ++ [x]) = Py.enumerate l ++ [(length l, x)].
Proof.
  unfold Py.enumerate. rewrite length_app. simpl.
  rewrite Nat.add_1_r, seq_S. simpl.
  rewrite zip_with_app by (rewrite length_seq; reflexivity). reflexivity.
Qed.

Lemma word2ind_snoc (vocab : list string) (w : string) :
  word2ind (vocab ++ [w]) = <[w := length vocab]> (word2ind vocab).
Proof.
  unfold word2ind. rewrite enumerate_snoc, fold_left_app. reflexivity.
Qed.

(** An index found in the dictionary is a position of the word. *)
Lemma word2ind_Some (vocab : list string) (w : string) (j : nat) :
  word2ind vocab !! w = Some j -> vocab !! j = Some w.
Proof.
  revert j. induction vocab as [|x vocab IH] using rev_ind; intros j H.
  - unfold word2ind in H. simpl in H. rewrite lookup_empty in H. discriminate.
  - rewrite word2ind_snoc in H. destruct (decide (x = w)) as [->|Hne].
    + rewrite lookup_insert_eq in H. injection H as <-.
      rewrite lookup_app_r by lia. rewrite Nat.sub_diag. reflexivity.
    + rewrite lookup_insert_ne in H by assumption.
      apply lookup_app_l_Some. auto.
Qed.

(** Every word of the vocabulary has an index. *)
Lemma word2ind_In (vocab : list string) (w : string) :
  In w vocab -> exists j, word2ind vocab !! w = Some j.
Proof.
  induction vocab as [|x vocab IH] using rev_ind; intros H.
  - destruct H.
  - rewrite word2ind_snoc. destruct (decide (x = w)) as [->|Hne].
    + rewrite lookup_insert_eq. eauto.
    + rewrite lookup_insert_ne by assumption. apply IH.
      apply in_app_or in H. destruct H as [H|[H|[]]]; [assumption | contradiction].
Qed.

(** In a vocabulary of distinct words the index is the position. *)
Lemma word2ind_NoDup (vocab : list string) (w : string) (j : nat) :
  List.NoDup vocab -> vocab !! j = Some w -> word2ind vocab !! w = Some j.
Proof.
  intros Hnd Hj.
  destruct (word2ind_In vocab w) as (j' & Hj').
  { apply list_elem_of_In. eapply list_elem_of_lookup_2; eassumption. }
  rewrite Hj'. f_equal.
  apply word2ind_Some in Hj'.
  apply NoDup_ListNoDup in Hnd.
  eapply NoDup_lookup; eassumption.
Qed.

(** ** One block *)

Lemma Zsum_insert (l : list Z) (j : nat) (c v : Z) :
  l !! j = Some c -> Zsum (<[j := v]> l) = (Zsum l - c + v)%Z.
Proof.
  revert j. induction l as [|x l IH]; intros [|j] H; simpl in *; try discriminate.
  - injection H as ->. unfold Zsum. simpl. lia.
  - unfold Zsum in *. simpl. rewrite (IH j H). lia.
Qed.

Lemma Zsum_repeat_0 (n : nat) : Zsum (repeat 0%Z n) = 0%Z.
Proof. induction n as [|n IH]; [reflexivity | exact IH]. Qed.

Lemma Zsum_app (l1 l2 : list Z) : Zsum (l1 ++ l2) = (Zsum l1 + Zsum l2)%Z.
Proof.
  unfold Zsum. induction l1 as [|x l1 IH]; simpl; [reflexivity | rewrite IH; lia].
Qed.

Lemma lookup_repeat_0 (n j : nat) : j < n -> repeat 0%Z n !! j = Some 0%Z.
Proof.
  revert j. induction n as [|n IH]; intros [|j] H; simpl; try lia; [reflexivity|].
  apply IH. lia.
Qed.

Section Block.
Variable vocab : list string.

Lemma count_word_counted (block : list string) (counts : list Z) (w : string) :
  counted vocab block counts -> In w vocab ->
  exists counts', count_word (word2ind vocab) counts w = Return counts' /\
                  counted vocab (block ++ [w]) counts'.
Proof.
  intros (Hlen & Hsum & Hcol) Hw.
  destruct (word2ind_In vocab w Hw) as (j & Hj).
  pose proof (word2ind_Some vocab w j Hj) as Hvj.
  destruct (lookup_lt_is_Some_2 counts j) as (c & Hc).
  { rewrite Hlen. eapply lookup_lt_Some. eassumption. }
  exists (<[j := (c + 1)%Z]> counts). unfold count_word. rewrite Hj, Hc.
  split; [reflexivity|]. split; [|split].
  - rewrite length_insert. exact Hlen.
  - rewrite (Zsum_insert _ _ c) by assumption.
    rewrite length_app. simpl. lia.
  - intros Hnd j' w' Hj'. rewrite count_occ_app. simpl.
    destruct (decide (j = j')) as [<-|Hne].
    + assert (w' = w) as -> by congruence.
      rewrite list_lookup_insert_eq by (eapply lookup_lt_Some; eassumption).
      rewrite (Hcol Hnd j w Hvj) in Hc. injection Hc as <-.
      destruct (string_dec w w) as [_|]; [|contradiction]. f_equal. lia.
    + rewrite list_lookup_insert_ne by assumption.
      rewrite (Hcol Hnd j' w' Hj').
      destruct (string_dec w w') as [->|_]; [|f_equal; lia].
      exfalso. apply Hne.
      pose proof (word2ind_NoDup vocab w' j' Hnd Hj'). congruence.
Qed.

Lemma count_block_counted (block : list string) :
  Forall (fun w => In w vocab) block ->
  exists counts, count_block (word2ind vocab) (length vocab) block = Return counts /\
                 counted vocab block counts.
Proof.
  intros Hin. unfold count_block.
  apply (foldM_invariant (count_word (word2ind vocab))
           (fun counts done => counted vocab done counts)
           (fun w => In w vocab)) with (done := []); [| |assumption].
  - intros counts done w Hc Hw. apply count_word_counted; assumption.
  - split; [apply repeat_length|]. split; [apply Zsum_repeat_0|].
    intros _ j w Hj. simpl. apply lookup_repeat_0.
    eapply lookup_lt_Some. eassumption.
Qed.

End Block.

(** ** The whole matrix *)

Lemma forM_map {A B C : Type} (f : B -> py C) (g : A -> B) (l : list A) :
  forM f (map g l) = forM (fun a => f (g a)) l.
Proof.
  induction l as [|a l IH]; simpl; [reflexivity | rewrite IH; reflexivity].
Qed.

Lemma In_block_at (words : list string) (b k : nat) (w : string) :
  In w (block_at words b k) -> In w words.
Proof.
  unfold block_at. intros H.
  rewrite <- (firstn_skipn (k * b) words). apply in_or_app. right.
  rewrite <- (firstn_skipn b (skipn (k * b) words)). apply in_or_app. left.
  exact H.
Qed.

Lemma count_freqs_by_blocks_counted (words vocab : list string) (blocksize : Z) :
  (1 <= blocksize)%Z ->
  (forall w, In w words -> In w vocab) ->
  exists rows,
    count_freqs_by_blocks words vocab blocksize = Return rows /\
    Forall2 (fun k r => counted vocab (block_at words (Z.to_nat blocksize) k) r)
            (seq 0 (Py.range_len 0 (Z.of_nat (length words)) blocksize)) rows.
Proof.
  intros Hb Hcover. unfold count_freqs_by_blocks.
  rewrite range_blocks by lia. simpl. rewrite forM_map.
  apply (forM_Forall2 _ (fun k r => counted vocab (block_at words (Z.to_nat blocksize) k) r)).
  apply List.Forall_forall. intros k _.
  rewrite slice_block by lia.
  apply count_block_counted. apply List.Forall_forall. intros w Hw.
  apply Hcover. eapply In_block_at. exact Hw.
Qed.

Lemma column_sum_counted (vocab : list string) (blocks : list (list string))
    (rows : list (list Z)) (j : nat) (w : string) :
  List.NoDup vocab -> vocab !! j = Some w ->
  Forall2 (counted vocab) blocks rows ->
  Zsum (column rows j) = Z.of_nat (count_occ string_dec (concat blocks) w).
Proof.
  intros Hnd Hj. induction 1 as [|blk r blocks rows (_ & _ & Hcol) _ IH].
  - reflexivity.
  - simpl. rewrite count_occ_app, (Hcol Hnd j w Hj). unfold Zsum in *. simpl.
    rewrite IH. lia.
Qed.

Lemma range_len_covers (len b : Z) :
  (0 <= len)%Z -> (1 <= b)%Z ->
  (len <= Z.of_nat (Py.range_len 0 len b) * b)%Z.
Proof.
  intros Hlen Hb. rewrite range_len_ceil by lia.
  apply ceil_div_bounds. lia.
Qed.

(** The column of a word adds up to its occurrences in the whole token
    sequence. *)
Lemma counted_columns (words vocab : list string) (blocksize : Z)
    (rows : list (list Z)) (j : nat) (w : string) :
  (1 <= blocksize)%Z ->
  List.NoDup vocab ->
  Forall2 (fun k r => counted vocab (block_at words (Z.to_nat blocksize) k) r)
          (seq 0 (Py.range_len 0 (Z.of_nat (length words)) blocksize)) rows ->
  vocab !! j = Some w ->
  Zsum (column rows j) = Z.of_nat (count_occ string_dec words w).
Proof.
  intros Hb Hnd Hrows Hj.
  apply Forall2_fmap_l in Hrows.
  rewrite (column_sum_counted vocab _ rows j w Hnd Hj Hrows).
  rewrite firstn_blocks, firstn_all2; [reflexivity|].
  pose proof (range_len_covers (Z.of_nat (length words)) blocksize ltac:(lia) Hb).
  nia.
Qed.

(** C7. For every token sequence, vocabulary of distinct words that covers
    it, and blocksize of at least 1, [count_freqs_by_blocks] returns a
    matrix with [ceil(len(words) / blocksize)] rows, each with one entry per
    vocabulary word, and the entries of the column of a word add up to the
    number of occurrences of the word in the token sequence. *)
Theorem count_freqs_by_blocks_shape_and_column_sums
    (words vocab : list string) (blocksize : Z) :
  (1 <= blocksize)%Z ->
  List.NoDup vocab ->
  (forall w, In w words -> In w vocab) ->
  exists rows,
    count_freqs_by_blocks words vocab blocksize = Return rows /\
    Z.of_nat (length rows) = ceil_div (Z.of_nat (length words)) blocksize /\
    Forall (fun r => length r = length vocab) rows /\
    forall j w, vocab !! j = Some w ->
      Zsum (column rows j) = Z.of_nat (count_occ string_dec words w).
Proof.
  intros Hb Hnd Hcover.
  destruct (count_freqs_by_blocks_counted words vocab blocksize Hb Hcover)
    as (rows & Hrun & Hrows).
  exists rows. split; [exact Hrun|].
  set (nb := Py.range_len 0 (Z.of_nat (length words)) blocksize) in *.
  assert (length rows = nb) as Hlen.
  { apply Forall2_length in Hrows. rewrite length_seq in Hrows. auto. }
  split; [|split].
  - rewrite Hlen. apply range_len_ceil; lia.
  - eapply Forall2_Forall_r; [exact Hrows|].
    apply List.Forall_forall. intros k _ r (Hl & _). exact Hl.
  - intros j w Hj. subst nb.
    eapply counted_columns; eassumption.
Qed.

Lemma length_block_at (words : list string) (b k : nat) :
  length (block_at words b k) = Nat.min b (length words - k * b).
Proof. unfold block_at. rewrite length_firstn, length_skipn. reflexivity. Qed.

(** C9. For every non-empty token sequence, covering vocabulary and
    blocksize of at least 1, the count matrix has
    [ceil(len(words) / blocksize)] rows, at least one; the entries of a row
    add up to the number of tokens of its block, which is [blocksize] for
    every row but the last, and for the last row
    [len(words) - blocksize * (n_blocks - 1)], a number from 1 to
    [blocksize]. *)
Theorem count_freqs_by_blocks_row_sums (words vocab : list string) (blocksize : Z) :
  words <> [] ->
  (1 <= blocksize)%Z ->
  (forall w, In w words -> In w vocab) ->
  exists rows,
    count_freqs_by_blocks words vocab blocksize = Return rows /\
    Z.of_nat (length rows) = ceil_div (Z.of_nat (length words)) blocksize /\
    1 <= length rows /\
    forall k r, rows !! k = Some r ->
      Zsum r = Z.of_nat (length (block_at words (Z.to_nat blocksize) k)) /\
      (k + 1 < length rows -> Zsum r = blocksize) /\
      (k + 1 = length rows ->
       Zsum r = (Z.of_nat (length words) - blocksize * (Z.of_nat (length rows) - 1))%Z /\
       (1 <= Zsum r <= blocksize)%Z).
Proof.
  intros Hne Hb Hcover.
  destruct (count_freqs_by_blocks_counted words vocab blocksize Hb Hcover)
    as (rows & Hrun & Hrows).
  exists rows. split; [exact Hrun|].
  set (len := Z.of_nat (length words)) in *.
  set (nb := Py.range_len 0 len blocksize) in *.
  assert (length rows = nb) as Hlen.
  { apply Forall2_length in Hrows. rewrite length_seq in Hrows. auto. }
  pose proof (range_len_ceil len blocksize ltac:(lia) ltac:(lia)) as Hnb.
  pose proof (ceil_div_bounds len blocksize ltac:(lia)) as Hceil.
  fold nb in Hnb. rewrite <- Hnb in Hceil.
  assert (1 <= len)%Z as Hlen1.
  { subst len. destruct words; [contradiction | simpl; lia]. }
  split; [rewrite Hlen; exact Hnb|].
  split; [rewrite Hlen; nia|].
  intros k r Hk.
  destruct (Forall2_lookup_r _ _ _ _ _ Hrows Hk) as (k' & Hk' & (_ & Hsum & _)).
  apply lookup_seq in Hk'. destruct Hk' as [Hk' _]. simpl in Hk'. subst k'.
  split; [exact Hsum|].
  rewrite Hsum, length_block_at, Hlen. fold len. split; intros Hpos.
  - rewrite Nat.min_l; nia.
  - rewrite Nat.min_r by nia. split; nia.
Qed.

(** An instance of C7: five tokens cut every two. *)
Lemma count_freqs_by_blocks_shape_and_column_sums_example :
  exists rows,
    count_freqs_by_blocks ["b"; "a"; "c"; "a"; "a"]%string ["a"; "b"; "c"]%string 2
      = Return rows /\
    Z.of_nat (length rows) = ceil_div 5 2 /\
    Forall (fun r => length r = 3) rows /\
    forall j w, ["a"; "b"; "c"]%string !! j = Some w ->
      Zsum (column rows j)
      = Z.of_nat (count_occ string_dec ["b"; "a"; "c"; "a"; "a"]%string w).
Proof.
  apply (count_freqs_by_blocks_shape_and_column_sums
           ["b"; "a"; "c"; "a"; "a"]%string ["a"; "b"; "c"]%string 2).
  - lia.
  - repeat constructor; simpl; intuition discriminate.
  - simpl. intuition.
Defined.

(** An instance of C9: three rows, of which the last holds the one token
    left. *)
Lemma count_freqs_by_blocks_row_sums_example :
  exists rows,
    count_freqs_by_blocks ["b"; "a"; "c"; "a"; "a"]%string ["a"; "b"; "c"]%string 2
      = Return rows /\
    Z.of_nat (length rows) = ceil_div 5 2 /\
    1 <= length rows /\
    forall k r, rows !! k = Some r ->
      Zsum r = Z.of_nat (length (block_at ["b"; "a"; "c"; "a"; "a"]%string
                                   (Z.to_nat 2) k)) /\
      (k + 1 < length rows -> Zsum r = 2%Z) /\
      (k + 1 = length rows ->
       Zsum r = (5 - 2 * (Z.of_nat (length rows) - 1))%Z /\ (1 <= Zsum r <= 2)%Z).
Proof.
  apply (count_freqs_by_blocks_row_sums
           ["b"; "a"; "c"; "a"; "a"]%string ["a"; "b"; "c"]%string 2).
  - discriminate.
  - lia.
  - simpl. intuition.
Defined.

(** ** The totals *)

Lemma fold_zip_with_length (rows : list (list Z)) (acc : list Z) (n : nat) :
  length acc = n -> Forall (fun r => length r = n) rows ->
  length (fold_left (zip_with Z.add) rows acc) = n.
Proof.
  revert acc. induction rows as [|r rows IH]; intros acc Hacc Hrows; simpl.
  - exact Hacc.
  - inversion Hrows as [|? ? Hr Hrows']; subst. apply IH; [|exact Hrows'].
    rewrite length_zip_with. lia.
Qed.

Lemma fold_zip_with_lookup (rows : list (list Z)) (acc : list Z) (n j : nat) (a : Z) :
  Forall (fun r => length r = n) rows -> j < n ->
  acc !! j = Some a ->
  fold_left (zip_with Z.add) rows acc !! j = Some (a + Zsum (column rows j))%Z.
Proof.
  revert acc a. induction rows as [|r rows IH]; intros acc a Hrows Hj Hacc; simpl.
  - rewrite Hacc. f_equal. unfold Zsum. simpl. lia.
  - inversion Hrows as [|? ? Hr Hrows']; subst.
    destruct (lookup_lt_is_Some_2 r j ltac:(lia)) as (c & Hc).
    rewrite (IH _ (a + c)%Z Hrows' Hj).
    + rewrite Hc. unfold Zsum. simpl. f_equal. lia.
    + rewrite lookup_zip_with, Hacc, Hc. reflexivity.
Qed.

(** The vector [totals] holds the column sums of the matrix. *)
Lemma sum_axis0_lookup (rows : list (list Z)) (n j : nat) (t : Z) :
  Forall (fun r => length r = n) rows ->
  sum_axis0 Z.add rows !! j = Some t ->
  j < n /\ t = Zsum (column rows j).
Proof.
  destruct rows as [|r rows]; simpl; [discriminate|].
  intros Hrows Ht. inversion Hrows as [|? ? Hr Hrows']; subst.
  assert (j < length r) as Hj.
  { apply lookup_lt_Some in Ht.
    rewrite (fold_zip_with_length rows r (length r) eq_refl Hrows') in Ht. exact Ht. }
  split; [exact Hj|].
  destruct (lookup_lt_is_Some_2 r j Hj) as (c & Hc).
  rewrite (fold_zip_with_lookup rows r (length r) j c Hrows' Hj Hc) in Ht.
  injection Ht as <-. rewrite Hc. unfold Zsum. reflexivity.
Qed.

(** ** The stable sort *)

Section Sort.
Context {A : Type}.
Variable lt : A -> A -> bool.

Lemma insert_Permutation (x : A) (l : list A) :
  Permutation (Py.insert lt x l) (x :: l).
Proof.
  induction l as [|y l IH]; simpl.
  - reflexivity.
  - destruct (lt y x).
    + rewrite IH. apply perm_swap.
    + reflexivity.
Qed.

Lemma sort_Permutation (l : list A) : Permutation (Py.sort lt l) l.
Proof.
  induction l as [|x l IH]; simpl.
  - reflexivity.
  - rewrite insert_Permutation. apply perm_skip. exact IH.
Qed.

(** [ok] singles out the elements that [lt] orders consistently, and
    [before] is a relation that the input is sorted by. *)
Variable ok : A -> Prop.
Variable before : A -> A -> Prop.

Hypothesis lt_asym : forall a b, lt a b = true -> lt b a = false.
Hypothesis lt_negtrans :
  forall a b c, ok c -> lt a b = true -> lt a c = true \/ lt c b = true.

Lemma insert_sorted (x : A) (l : list A) :
  Forall ok l ->
  Forall (before x) l ->
  StronglySorted (stable_order lt before) l ->
  StronglySorted (stable_order lt before) (Py.insert lt x l).
Proof using lt_asym lt_negtrans.
  intros Hok Hbefore Hsorted.
  induction Hsorted as [|y l Hsorted IH Hy]; simpl.
  - repeat constructor.
  - inversion Hok as [|? ? Hoky Hokl]; subst.
    inversion Hbefore as [|? ? Hxy Hxl]; subst.
    destruct (lt y x) eqn:Hyx.
    + constructor; [apply IH; assumption|].
      eapply Permutation_Forall; [symmetry; apply insert_Permutation|].
      constructor; [left; exact Hyx | exact Hy].
    + constructor; [constructor; assumption|].
      constructor; [right; auto|].
      rewrite List.Forall_forall in *. intros z Hz. right.
      split; [|auto].
      destruct (lt z x) eqn:Hzx; [|reflexivity]. exfalso.
      destruct (lt_negtrans z x y Hoky Hzx) as [Hzy|Hyx']; [|congruence].
      destruct (Hy z Hz) as [Hyz|[Hzy' _]]; [|congruence].
      apply lt_asym in Hyz. congruence.
Qed.

Lemma sort_sorted (l : list A) :
  Forall ok l ->
  StronglySorted before l ->
  StronglySorted (stable_order lt before) (Py.sort lt l).
Proof using lt_asym lt_negtrans.
  intros Hok Hsorted. induction Hsorted as [|x l Hsorted IH Hx]; simpl.
  - constructor.
  - inversion Hok as [|? ? _ Hokl]; subst.
    apply insert_sorted.
    + eapply Permutation_Forall; [symmetry; apply sort_Permutation | exact Hokl].
    + eapply Permutation_Forall; [symmetry; apply sort_Permutation | exact Hx].
    + apply IH. exact Hokl.
Qed.

End Sort.

Lemma StronglySorted_impl {A : Type} (R S : A -> A -> Prop) (l : list A) :
  (forall a b, In a l -> In b l -> R a b -> S a b) ->
  StronglySorted R l -> StronglySorted S l.
Proof.
  intros HRS Hsorted. induction Hsorted as [|x l Hsorted IH Hx].
  - constructor.
  - constructor.
    + apply IH. intros a b Ha Hb. apply HRS; right; assumption.
    + rewrite List.Forall_forall in *. intros y Hy.
      apply HRS; [left; reflexivity | right; assumption | auto].
Qed.

Lemma StronglySorted_filter {A : Type} (R : A -> A -> Prop) (f : A -> bool) (l : list A) :
  StronglySorted R l -> StronglySorted R (List.filter f l).
Proof.
  induction 1 as [|x l Hsorted IH Hx]; simpl.
  - constructor.
  - destruct (f x); [|exact IH]. constructor; [exact IH|].
    rewrite List.Forall_forall in *. intros y Hy.
    apply filter_In in Hy. apply Hx. tauto.
Qed.

Lemma StronglySorted_zip_fst {A B : Type} (R : A -> A -> Prop) (l : list A) (k : list B) :
  StronglySorted R l -> StronglySorted (fun a b => R a.1 b.1) (zip l k).
Proof.
  intros Hsorted. revert k. induction Hsorted as [|x l Hsorted IH Hx]; intros [|y k]; simpl;
    try constructor.
  - apply IH.
  - rewrite List.Forall_forall in *. intros [a b] Hab. simpl.
    apply Hx. apply (in_combine_l l k a b).
    clear -Hab. revert k Hab. induction l as [|x l IH]; intros [|y k] H; simpl in *;
      try contradiction.
    destruct H as [H|H]; [left; exact H | right; apply IH; exact H].
Qed.

Lemma NoDup_StronglySorted_neq {A : Type} (l : list A) :
  List.NoDup l -> StronglySorted (fun a b => a <> b) l.
Proof.
  induction 1 as [|x l Hx Hnd IH]; constructor; [exact IH|].
  apply List.Forall_forall. intros y Hy ->. contradiction.
Qed.

(** ** The vocabulary *)

Lemma string_ltb_lt (a b : string) : String.ltb a b = true <-> String_as_OT.lt a b.
Proof.
  unfold String.ltb. rewrite <- String_as_OT.cmp_lt. unfold String_as_OT.cmp.
  destruct (String.compare a b); split; congruence.
Qed.

Lemma string_ltb_asym (a b : string) : String.ltb a b = true -> String.ltb b a = false.
Proof.
  intros Hab. destruct (String.ltb b a) eqn:Hba; [|reflexivity].
  apply string_ltb_lt in Hab, Hba.
  pose proof (String_as_OT.lt_trans _ _ _ Hab Hba) as Haa.
  apply String_as_OT.lt_not_eq in Haa. exfalso. apply Haa. reflexivity.
Qed.

Lemma string_lt_total (a b : string) :
  String_as_OT.lt a b \/ a = b \/ String_as_OT.lt b a.
Proof. destruct (String_as_OT.compare a b); auto. Qed.

Lemma string_ltb_negtrans (a b c : string) :
  String.ltb a b = true -> String.ltb a c = true \/ String.ltb c b = true.
Proof.
  rewrite !string_ltb_lt. intros Hab.
  destruct (string_lt_total a c) as [Hac|[<-|Hca]]; [left; assumption | right; assumption|].
  right. eapply String_as_OT.lt_trans; eassumption.
Qed.

Lemma vocabulary_In (words : list string) (w : string) :
  In w (vocabulary words) <-> In w words.
Proof.
  unfold vocabulary, Py.set. rewrite <- (nodup_In string_dec words w).
  split; apply Permutation_in;
    [apply sort_Permutation | symmetry; apply sort_Permutation].
Qed.

Lemma vocabulary_NoDup (words : list string) : List.NoDup (vocabulary words).
Proof.
  unfold vocabulary, Py.set.
  eapply Permutation_NoDup; [symmetry; apply sort_Permutation|].
  apply List.NoDup_nodup.
Qed.

(** The vocabulary is in strictly increasing lexicographic order. *)
Lemma vocabulary_sorted (words : list string) :
  StronglySorted String_as_OT.lt (vocabulary words).
Proof.
  unfold vocabulary, Py.set.
  eapply StronglySorted_impl;
    [|apply (sort_sorted String.ltb (fun _ => True) (fun a b => a <> b))].
  - intros a b _ _ [Hab|[Hba Hne]]; [apply string_ltb_lt; exact Hab|].
    destruct (string_lt_total a b) as [Hlt|[Heq|Hgt]];
      [assumption | contradiction|].
    apply string_ltb_lt in Hgt. congruence.
  - apply string_ltb_asym.
  - intros a b c _. apply string_ltb_negtrans.
  - apply List.Forall_forall. auto.
  - apply NoDup_StronglySorted_neq, List.NoDup_nodup.
Qed.

(** ** The order of doubles *)

Lemma SFcompare_rank (f g : spec_float) :
  match SFcompare f g with
  | None => SFrank f = None \/ SFrank g = None
  | Some c =>
      exists a b, SFrank f = Some a /\ SFrank g = Some b /\
        match c with
        | Lt => lt3 a b
        | Eq => a = b
        | Gt => lt3 b a
        end
  end.
Proof.
  destruct f as [sf|sf| |sf mf ef], g as [sg|sg| |sg mg eg]; simpl; auto;
    try (destruct sf); try (destruct sg); simpl;
    try (eexists _, _; split; [reflexivity|]; split; [reflexivity|];
         unfold lt3; simpl; first [reflexivity | lia]).
  - destruct (Z.compare_spec ef eg) as [->|Hlt|Hgt];
      [rewrite Pos.compare_cont_spec; simpl;
       destruct (Pos.compare_spec mf mg) as [->|Hm|Hm]; simpl|..];
      eexists _, _; (split; [reflexivity|]); (split; [reflexivity|]);
      unfold lt3; simpl; first [reflexivity | lia].
  - destruct (Z.compare_spec ef eg) as [->|Hlt|Hgt];
      [rewrite Pos.compare_cont_spec; simpl;
       destruct (Pos.compare_spec mf mg) as [->|Hm|Hm]; simpl|..];
      eexists _, _; (split; [reflexivity|]); (split; [reflexivity|]);
      unfold lt3; simpl; first [reflexivity | lia].
Qed.

Lemma ltb_rank (x y : float) :
  PrimFloat.ltb x y = true <->
  exists a b, rank x = Some a /\ rank y = Some b /\ lt3 a b.
Proof.
  rewrite ltb_spec. unfold SFltb, rank.
  pose proof (SFcompare_rank (Prim2SF x) (Prim2SF y)) as H.
  destruct (SFcompare (Prim2SF x) (Prim2SF y)) as [[| |]|].
  - destruct H as (a & b & Ha & Hb & ->). split; [discriminate|].
    intros (a' & b' & Ha' & Hb' & Hlt). unfold lt3 in Hlt.
    assert (a' = b) by congruence. assert (b' = b) by congruence. subst. lia.
  - destruct H as (a & b & Ha & Hb & Hlt). split; eauto.
  - destruct H as (a & b & Ha & Hb & Hgt). split; [discriminate|].
    intros (a' & b' & Ha' & Hb' & Hlt). unfold lt3 in *.
    assert (a' = a) by congruence. assert (b' = b) by congruence. subst. lia.
  - split; [discriminate|]. intros (a & b & Ha & Hb & _).
    destruct H; congruence.
Qed.

Lemma eqb_rank (x y : float) :
  PrimFloat.eqb x y = true <-> exists a, rank x = Some a /\ rank y = Some a.
Proof.
  rewrite FloatAxioms.eqb_spec. unfold SFeqb, rank.
  pose proof (SFcompare_rank (Prim2SF x) (Prim2SF y)) as H.
  destruct (SFcompare (Prim2SF x) (Prim2SF y)) as [[| |]|].
  - destruct H as (a & b & Ha & Hb & ->). split; eauto.
  - destruct H as (a & b & Ha & Hb & Hlt). split; [discriminate|].
    intros (c & Hx & Hy). unfold lt3 in Hlt.
    assert (a = c) by congruence. assert (b = c) by congruence. subst. lia.
  - destruct H as (a & b & Ha & Hb & Hlt). split; [discriminate|].
    intros (c & Hx & Hy). unfold lt3 in Hlt.
    assert (a = c) by congruence. assert (b = c) by congruence. subst. lia.
  - split; [discriminate|]. intros (a & Ha & Hb). destruct H; congruence.
Qed.

Lemma opp_rank (x : float) :
  rank (- x) = option_map (fun a => (- a.1.1, - a.1.2, - a.2)%Z) (rank x).
Proof.
  unfold rank. rewrite opp_spec.
  destruct (Prim2SF x) as [s|s| |s m e]; simpl; try reflexivity;
    destruct s; simpl; repeat f_equal; lia.
Qed.

(** [-x < -y] is [y < x]. *)
Lemma ltb_opp (x y : float) : PrimFloat.ltb (- x) (- y) = PrimFloat.ltb y x.
Proof.
  apply eq_true_iff_eq. rewrite !ltb_rank, !opp_rank. split.
  - intros (a & b & Ha & Hb & Hlt).
    destruct (rank x) as [rx|]; [|discriminate].
    destruct (rank y) as [ry|]; [|discriminate].
    simpl in Ha, Hb. injection Ha as <-. injection Hb as <-.
    exists ry, rx. unfold lt3 in *. simpl in *. repeat split; try reflexivity. lia.
  - intros (a & b & -> & -> & Hlt). simpl.
    eexists _, _. repeat split; try reflexivity. unfold lt3 in *. simpl. lia.
Qed.

Lemma ltb_asym (x y : float) : PrimFloat.ltb x y = true -> PrimFloat.ltb y x = false.
Proof.
  intros Hxy. destruct (PrimFloat.ltb y x) eqn:Hyx; [|reflexivity].
  apply ltb_rank in Hxy, Hyx.
  destruct Hxy as (a & b & Ha & Hb & H1), Hyx as (b' & a' & Hb' & Ha' & H2).
  assert (a' = a) by congruence. assert (b' = b) by congruence. subst.
  unfold lt3 in *. lia.
Qed.

(** A double that is no [nan] is on one side of any strict inequality. *)
Lemma ltb_negtrans (x y z : float) :
  rank z <> None ->
  PrimFloat.ltb x y = true -> PrimFloat.ltb x z = true \/ PrimFloat.ltb z y = true.
Proof.
  intros Hz Hxy. apply ltb_rank in Hxy. destruct Hxy as (a & b & Ha & Hb & Hab).
  destruct (rank z) as [c|] eqn:Hc; [|contradiction].
  assert (lt3 a c \/ lt3 c b) as [H|H] by (unfold lt3 in *; lia).
  - left. apply ltb_rank. eauto 6.
  - right. apply ltb_rank. eauto 6.
Qed.

(** Among doubles that are no [nan], what is not smaller is equal or
    larger. *)
Lemma ltb_false_cases (x y : float) :
  rank x <> None -> rank y <> None ->
  PrimFloat.ltb x y = false ->
  PrimFloat.ltb y x = true \/ PrimFloat.eqb x y = true.
Proof.
  intros Hx Hy Hxy.
  destruct (rank x) as [a|] eqn:Ha; [|contradiction].
  destruct (rank y) as [b|] eqn:Hb; [|contradiction].
  assert (lt3 a b \/ a = b \/ lt3 b a) as [H|[H|H]].
  { unfold lt3. destruct a as [[a1 a2] a3], b as [[b1 b2] b3]. simpl.
    destruct (Z.eq_dec a1 b1), (Z.eq_dec a2 b2), (Z.eq_dec a3 b3);
      subst; auto; lia. }
  - assert (PrimFloat.ltb x y = true) by (apply ltb_rank; eauto 6). congruence.
  - right. apply eqb_rank. subst. eauto.
  - left. apply ltb_rank. eauto 6.
Qed.

(** What exceeds a threshold is no [nan]. *)
Lemma ltb_rank_r (t x : float) : PrimFloat.ltb t x = true -> rank x <> None.
Proof. intros H. apply ltb_rank in H. destruct H as (a & b & _ & Hb & _). congruence. Qed.

(** ** Threshold and ranking *)

(** The order of the ranked pairs: a later pair has a smaller score, or an
    equal score and a later word. *)
Lemma select_above (vocab : list string) (h : list float) (t : float) :
  Forall (fun ws => PrimFloat.ltb t ws.2 = true) (select vocab h t).
Proof.
  unfold select.
  eapply Permutation_Forall; [symmetry; apply sort_Permutation|].
  apply List.Forall_forall. intros ws Hws. apply filter_In in Hws. tauto.
Qed.

Lemma select_sorted (vocab : list string) (h : list float) (t : float) :
  StronglySorted String_as_OT.lt vocab ->
  StronglySorted ranked (select vocab h t).
Proof.
  intros Hvocab. unfold select.
  set (l := List.filter (fun ws => PrimFloat.ltb t ws.2) (zip vocab h)).
  assert (Forall (fun ws : string * float => rank ws.2 <> None) l) as Hok.
  { apply List.Forall_forall. intros ws Hws. apply filter_In in Hws.
    eapply ltb_rank_r. apply Hws. }
  eapply StronglySorted_impl;
    [|apply (sort_sorted (fun a b : string * float => PrimFloat.ltb (- a.2) (- b.2))
               (fun ws => rank ws.2 <> None)
               (fun a b => String_as_OT.lt a.1 b.1))].
  - intros a b Ha Hb. unfold stable_order, ranked. rewrite !ltb_opp.
    rewrite List.Forall_forall in Hok.
    assert (In a l) as Ha' by (eapply Permutation_in; [apply sort_Permutation | exact Ha]).
    assert (In b l) as Hb' by (eapply Permutation_in; [apply sort_Permutation | exact Hb]).
    intros [Hlt|[Hnlt Hbefore]]; [left; exact Hlt|].
    destruct (ltb_false_cases a.2 b.2 (Hok a Ha') (Hok b Hb') Hnlt) as [H|H]; auto.
  - intros a b. rewrite !ltb_opp. apply ltb_asym.
  - intros a b c Hc. rewrite !ltb_opp. intros Hab.
    destruct (ltb_negtrans b.2 a.2 c.2 Hc Hab); auto.
  - exact Hok.
  - apply StronglySorted_filter, StronglySorted_zip_fst, Hvocab.
Qed.

Lemma select_none (vocab : list string) (h : list float) (t : float) :
  Forall (fun s => PrimFloat.ltb t s = false) h -> select vocab h t = [].
Proof.
  intros Hh. unfold select.
  replace (List.filter (fun ws => PrimFloat.ltb t ws.2) (zip vocab h)) with
    (@nil (string * float)); [reflexivity|].
  symmetry. revert vocab. induction Hh as [|s h Hs Hh IH]; intros [|w vocab]; simpl;
    try reflexivity.
  rewrite Hs. apply IH.
Qed.

Lemma select_Permutation (vocab : list string) (h : list float) (t : float) :
  Permutation (select vocab h t)
    (List.filter (fun ws => PrimFloat.ltb t ws.2) (zip vocab h)).
Proof. unfold select. apply sort_Permutation. Qed.

(** The pairs selected are the pairs of a word and its score in which the
    score exceeds the threshold. *)
Lemma select_In (vocab : list string) (h : list float) (t : float)
    (w : string) (s : float) :
  In (w, s) (select vocab h t) <->
  (exists j, vocab !! j = Some w /\ h !! j = Some s) /\ PrimFloat.ltb t s = true.
Proof.
  assert (In (w, s) (select vocab h t) <->
          In (w, s) (zip vocab h) /\ PrimFloat.ltb t s = true) as ->.
  { rewrite <- (filter_In (fun ws : string * float => PrimFloat.ltb t ws.2)).
    split; apply Permutation_in;
      [apply select_Permutation | symmetry; apply select_Permutation]. }
  assert (In (w, s) (zip vocab h) <->
          exists j, vocab !! j = Some w /\ h !! j = Some s) as ->; [|reflexivity].
  rewrite <- list_elem_of_In, list_elem_of_lookup. unfold zip.
  split; intros (j & Hj); exists j.
  - apply lookup_zip_with_Some in Hj. destruct Hj as (x & y & Heq & Hx & Hy).
    injection Heq as -> ->. auto.
  - apply lookup_zip_with_Some. destruct Hj as [Hx Hy]. eauto.
Qed.

Lemma In_fst_zip {A B : Type} (l : list A) (k : list B) (x : A) :
  In x (map fst (zip l k)) -> In x l.
Proof.
  revert k. induction l as [|a l IH]; intros [|b k] H; simpl in *; try contradiction.
  destruct H as [H|H]; [left; exact H | right; eapply IH; exact H].
Qed.

Lemma NoDup_fst_filter_zip {A B : Type} (f : A * B -> bool) (l : list A) (k : list B) :
  List.NoDup l -> List.NoDup (map fst (List.filter f (zip l k))).
Proof.
  intros Hnd. revert k. induction Hnd as [|a l Ha Hnd IH]; intros [|b k]; simpl;
    try constructor.
  destruct (f (a, b)); simpl; [|apply IH].
  constructor; [|apply IH].
  intros Hin. apply Ha. apply (In_fst_zip l k).
  apply in_map_iff in Hin. destruct Hin as (p & Hp & Hin).
  apply in_map_iff. exists p. split; [exact Hp|].
  apply filter_In in Hin. tauto.
Qed.

Lemma select_NoDup (vocab : list string) (h : list float) (t : float) :
  List.NoDup vocab -> List.NoDup (map fst (select vocab h t)).
Proof.
  intros Hnd.
  eapply Permutation_NoDup;
    [apply Permutation_map; symmetry; apply select_Permutation|].
  apply NoDup_fst_filter_zip. exact Hnd.
Qed.

(** ** Running the scorer *)

Lemma forM_length {A B : Type} (f : A -> py B) (l : list A) (bs : list B) :
  forM f l = Return bs -> length bs = length l.
Proof.
  revert bs. induction l as [|a l IH]; intros bs H; simpl in H.
  - injection H as <-. reflexivity.
  - apply bind_Return in H. destruct H as (b & _ & H).
    apply bind_Return in H. destruct H as (bs' & Hbs' & H).
    injection H as <-. simpl. f_equal. apply IH. exact Hbs'.
Qed.

Lemma count_freqs_by_blocks_Return (words vocab : list string) (blocksize : Z)
    (rows : list (list Z)) :
  count_freqs_by_blocks words vocab blocksize = Return rows ->
  blocksize <> 0%Z /\
  length rows = Py.range_len 0 (Z.of_nat (length words)) blocksize.
Proof.
  unfold count_freqs_by_blocks, Py.range. intros H.
  destruct (Z.eqb_spec blocksize 0) as [|Hne]; [discriminate|].
  split; [exact Hne|]. simpl in H. apply forM_length in H.
  rewrite H, length_map, length_seq. reflexivity.
Qed.


Lemma range_len_positive (len b : Z) :
  (0 <= len)%Z -> Py.range_len 0 len b <> 0 -> (0 < len /\ 1 <= b)%Z.
Proof.
  unfold Py.range_len. intros Hlen.
  destruct (Z.ltb_spec 0 b), (Z.ltb_spec 0 len), (Z.ltb_spec len 0); lia.
Qed.

Section Run.
Context {M : Libm}.

(** What [mz_keywords] has done when it returns. *)
Lemma mz_keywords_words_Return (words : list string) (blocksize : Z)
    (scores split weighted : bool) (threshold : threshold_arg) (out : output) :
  mz_keywords_words words blocksize scores split weighted threshold = Return out ->
  (1 <= blocksize)%Z /\ words <> [] /\
  exists rows,
    count_freqs_by_blocks words (vocabulary words) blocksize = Return rows /\
    Z.of_nat (length rows) = ceil_div (Z.of_nat (length words)) blocksize /\
    out = format (select (vocabulary words)
                    (entropy_scores rows blocksize weighted)
                    (resolve_threshold threshold
                       (ceil_div (Z.of_nat (length words)) blocksize)))
            scores split.
Proof.
  unfold mz_keywords_words. intros H.
  apply bind_Return in H. destruct H as (rows & Hrows & H).
  destruct (count_freqs_by_blocks_Return _ _ _ _ Hrows) as (_ & Hlen).
  assert (length rows <> 0) as Hpos by (destruct rows; [discriminate | simpl; lia]).
  rewrite Hlen in Hpos.
  apply range_len_positive in Hpos; [|lia]. destruct Hpos as [Hwords Hb].
  pose proof (range_len_ceil (Z.of_nat (length words)) blocksize ltac:(lia) ltac:(lia))
    as Hceil.
  rewrite <- Hlen in Hceil.
  split; [exact Hb|]. split; [intros ->; simpl in Hwords; lia|].
  exists rows. split; [exact Hrows|]. split; [exact Hceil|].
  rewrite <- Hceil. destruct rows; [discriminate|].
  destruct (calls_marginal _ _ && float_overflows _); [discriminate | congruence].
Qed.

(** A blocksize below 2^53 has a double. *)
Lemma float_overflows_small (z : Z) :
  (Z.abs z < 2 ^ 53)%Z -> float_overflows z = false.
Proof.
  intros Hz. unfold float_overflows. apply Z.leb_gt.
  assert (2 ^ 53 < 2 ^ 1024 - 2 ^ 970)%Z as Hlt by (vm_compute; reflexivity).
  eapply Z.lt_trans; eassumption.
Qed.

(** When [mz_keywords] returns, the conversion of line 126 was not asked
    for, or it succeeded. *)
Lemma mz_keywords_words_converts (words : list string) (blocksize : Z)
    (scores split weighted : bool) (threshold : threshold_arg) (out : output)
    (rows : list (list Z)) :
  mz_keywords_words words blocksize scores split weighted threshold = Return out ->
  count_freqs_by_blocks words (vocabulary words) blocksize = Return rows ->
  calls_marginal blocksize (sum_axis0 Z.add rows) && float_overflows blocksize = false.
Proof.
  unfold mz_keywords_words. intros H Hrows. rewrite Hrows in H. simpl in H.
  destruct rows; [discriminate|].
  destruct (calls_marginal _ _ && float_overflows _); [discriminate | reflexivity].
Qed.

(** On a non-empty token sequence and a positive blocksize the scorer
    gets to line 68, and returns unless the conversion of line 126 fails
    there. *)
Lemma mz_keywords_words_runs (words : list string) (blocksize : Z)
    (scores split weighted : bool) (threshold : threshold_arg) :
  words <> [] -> (1 <= blocksize)%Z ->
  exists rows,
    count_freqs_by_blocks words (vocabulary words) blocksize = Return rows /\
    rows <> [] /\
    mz_keywords_words words blocksize scores split weighted threshold =
      if calls_marginal blocksize (sum_axis0 Z.add rows) && float_overflows blocksize
      then Raise OverflowError
      else Return (format (select (vocabulary words)
                             (entropy_scores rows blocksize weighted)
                             (resolve_threshold threshold (Z.of_nat (length rows))))
                     scores split).
Proof.
  intros Hne Hb.
  destruct (count_freqs_by_blocks_counted words (vocabulary words) blocksize Hb)
    as (rows & Hrows & _).
  { intros w. apply vocabulary_In. }
  exists rows. split; [exact Hrows|].
  destruct (count_freqs_by_blocks_Return _ _ _ _ Hrows) as (_ & Hlen).
  assert (rows <> []) as Hrne.
  { intros ->. simpl in Hlen.
    pose proof (range_len_covers (Z.of_nat (length words)) blocksize ltac:(lia) Hb).
    rewrite <- Hlen in H. destruct words; [contradiction | simpl in H; lia]. }
  split; [exact Hrne|].
  unfold mz_keywords_words. rewrite Hrows. simpl.
  destruct rows; [contradiction | reflexivity].
Qed.

(** C4. Whenever [mz_keywords] returns scores, every returned pair has a
    score strictly above the resolved threshold: above
    [n_blocks / (n_blocks + 1.0) + 1e-8], with [n_blocks] the number
    [ceil(len(words) / blocksize)] of blocks, when ['auto'] was passed, and
    above the number passed otherwise. (The double [1e-8] is
    [0x1.5798ee2308c3ap-27].) *)
Theorem mz_keywords_scores_above_threshold
    (tokenize : string -> list string) (text : string) (blocksize : Z)
    (split weighted : bool) (threshold : threshold_arg) (l : list (string * float)) :
  mz_keywords tokenize text blocksize true split weighted threshold = Return (Scored l) ->
  let n_blocks := double (ceil_div (Z.of_nat (length (tokenize text))) blocksize) in
  let resolved :=
    match threshold with
    | Auto => (n_blocks / (n_blocks + 1) + 0x1.5798ee2308c3ap-27)%float
    | Numeric t => t
    end in
  Forall (fun ws => PrimFloat.ltb resolved ws.2 = true) l.
Proof.
  unfold mz_keywords. intros H.
  apply mz_keywords_words_Return in H.
  destruct H as (_ & _ & rows & _ & _ & Hout).
  simpl in Hout. injection Hout as ->.
  exact (select_above _ _ (resolve_threshold threshold _)).
Qed.

(** C5. Whatever [mz_keywords] returns is built from a list [weights] of
    pairs of a word and its score: every vocabulary word whose score
    [h[j]] exceeds the resolved threshold is in it, once and with that
    score, and nothing else is. The list is ranked by these scores: they
    never increase along it, and of two pairs with equal scores the one
    whose word comes first in the sorted vocabulary comes first. The list
    of words, and the string, hold the words of [weights] in this order. *)
Theorem mz_keywords_ranked
    (tokenize : string -> list string) (text : string) (blocksize : Z)
    (scores split weighted : bool) (threshold : threshold_arg) (out : output) :
  mz_keywords tokenize text blocksize scores split weighted threshold = Return out ->
  exists rows weights,
    count_freqs_by_blocks (tokenize text) (vocabulary (tokenize text)) blocksize
      = Return rows /\
    out = format weights scores split /\
    List.NoDup (map fst weights) /\
    (forall w s,
        In (w, s) weights <->
        (exists j, vocabulary (tokenize text) !! j = Some w /\
                   entropy_scores rows blocksize weighted !! j = Some s) /\
        PrimFloat.ltb (resolve_threshold threshold (Z.of_nat (length rows))) s = true) /\
    StronglySorted
      (fun a b => PrimFloat.ltb b.2 a.2 = true \/
                  (PrimFloat.eqb a.2 b.2 = true /\ String_as_OT.lt a.1 b.1))
      weights.
Proof.
  unfold mz_keywords. intros H.
  apply mz_keywords_words_Return in H.
  destruct H as (_ & _ & rows & Hrows & Hlen & ->).
  exists rows. eexists. split; [exact Hrows|]. split; [reflexivity|].
  split; [apply select_NoDup, vocabulary_NoDup|].
  split; [intros w s; rewrite Hlen; apply select_In|].
  apply select_sorted, vocabulary_sorted.
Qed.

End Run.

(** ** Joining and splitting *)

Lemma string_app_cons (x : ascii) (a b : string) :
  (String x a ++ b = String x (a ++ b))%string.
Proof. reflexivity. Qed.

Lemma string_app_assoc (a b c : string) : ((a ++ b) ++ c = a ++ (b ++ c))%string.
Proof.
  induction a as [|x a IH]; [reflexivity|].
  rewrite !string_app_cons. f_equal. exact IH.
Qed.

Lemma string_app_nil_r (a : string) : (a ++ EmptyString = a)%string.
Proof.
  induction a as [|x a IH]; [reflexivity|].
  rewrite string_app_cons. f_equal. exact IH.
Qed.

Lemma split_from_piece (c : ascii) (x : string) :
  free_of c x ->
  forall cur rest,
    Py.split_from c cur (x ++ String c rest) =
      (cur ++ x)%string :: Py.split_from c EmptyString rest.
Proof.
  unfold free_of. induction x as [|a x IH]; intros Hfree cur rest.
  - change (Py.split_from c cur (String c rest) =
            (cur ++ EmptyString)%string :: Py.split_from c EmptyString rest).
    simpl. rewrite Ascii.eqb_refl, string_app_nil_r. reflexivity.
  - rewrite string_app_cons. simpl in *.
    destruct (Ascii.eqb_spec a c) as [->|_]; [tauto|].
    rewrite IH by tauto. rewrite string_app_assoc. reflexivity.
Qed.

Lemma split_from_last (c : ascii) (x : string) :
  free_of c x -> forall cur, Py.split_from c cur x = [(cur ++ x)%string].
Proof.
  unfold free_of. induction x as [|a x IH]; intros Hfree cur; simpl.
  - rewrite string_app_nil_r. reflexivity.
  - simpl in Hfree. destruct (Ascii.eqb_spec a c) as [->|_]; [tauto|].
    rewrite IH by tauto. rewrite string_app_assoc. reflexivity.
Qed.

(** Splitting what was joined gives the pieces back, when there is at
    least one and none contains the separator. *)
Lemma split_join (c : ascii) (l : list string) :
  l <> [] -> Forall (free_of c) l ->
  Py.split c (Py.join (String c EmptyString) l) = l.
Proof.
  intros Hne Hfree. unfold Py.split.
  induction Hfree as [|x l Hx Hl IH]; [contradiction|].
  destruct l as [|y l].
  - simpl. apply split_from_last. exact Hx.
  - change (Py.join (String c EmptyString) (x :: y :: l))
      with (x ++ String c (Py.join (String c EmptyString) (y :: l)))%string.
    rewrite split_from_piece by exact Hx.
    f_equal. apply IH. discriminate.
Qed.

Lemma select_words (vocab : list string) (h : list float) (t : float) (w : string) :
  In w (map fst (select vocab h t)) -> In w vocab.
Proof.
  intros H. apply in_map_iff in H. destruct H as ([w' s] & <- & H). simpl.
  unfold select in H.
  eapply Permutation_in in H; [|apply sort_Permutation].
  apply filter_In in H. destruct H as [H _].
  clear -H. revert h H. induction vocab as [|x vocab IH]; intros [|y h] H; simpl in *;
    try contradiction.
  destruct H as [H|H]; [left; congruence | right; eapply IH; exact H].
Qed.


Section Formats.
Context {M : Libm}.

(** C10. On a non-empty document and a blocksize of at least 1, when no
    combined score exceeds the resolved threshold, [mz_keywords] returns:
    the empty sequence when scores, or a list, are asked for, and the empty
    string otherwise. The blocksize is below 2^53, so that every number of
    tokens that the scorer converts is a double, and line 126 converts
    without an [OverflowError]. *)
Theorem mz_keywords_no_keyword
    (tokenize : string -> list string) (text : string) (blocksize : Z)
    (scores split weighted : bool) (threshold : threshold_arg) :
  tokenize text <> [] ->
  (1 <= blocksize)%Z ->
  (blocksize < 2 ^ 53)%Z ->
  (forall rows,
      count_freqs_by_blocks (tokenize text) (vocabulary (tokenize text)) blocksize
        = Return rows ->
      Forall (fun s => PrimFloat.ltb
                         (resolve_threshold threshold (Z.of_nat (length rows))) s = false)
             (entropy_scores rows blocksize weighted)) ->
  mz_keywords tokenize text blocksize scores split weighted threshold =
    Return (if scores then Scored []
            else if split then Words [] else Joined EmptyString).
Proof.
  intros Hne Hb Hsmall Hnone. unfold mz_keywords.
  destruct (mz_keywords_words_runs (tokenize text) blocksize scores split weighted
              threshold Hne Hb) as (rows & Hrows & _ & ->).
  rewrite float_overflows_small by lia. rewrite andb_false_r.
  rewrite select_none by (apply Hnone; exact Hrows).
  destruct scores, split; reflexivity.
Qed.



(** C8, as the code has it. When no token contains a newline and at
    least one keyword is returned, the string returned without scores and
    without [split], cut at the newlines, is the list returned with
    [split]; when no keyword is returned the string is empty, and cut at
    the newlines it is a list of one empty string. *)
Theorem mz_keywords_split_of_joined
    (tokenize : string -> list string) (text : string) (blocksize : Z)
    (weighted : bool) (threshold : threshold_arg) (s : string) (l : list string) :
  Forall (free_of newline) (tokenize text) ->
  mz_keywords tokenize text blocksize false false weighted threshold = Return (Joined s) ->
  mz_keywords tokenize text blocksize false true weighted threshold = Return (Words l) ->
  (l <> [] -> Py.split newline s = l) /\
  (l = [] -> s = EmptyString /\ Py.split newline s = [EmptyString]).
Proof.
  unfold mz_keywords. intros Hfree Hs Hl.
  apply mz_keywords_words_Return in Hs, Hl.
  destruct Hs as (_ & _ & rows & Hrows & _ & Hs).
  destruct Hl as (_ & _ & rows' & Hrows' & _ & Hl).
  assert (rows' = rows) as -> by congruence.
  simpl in Hs, Hl. injection Hs as ->. injection Hl as ->.
  split.
  - intros Hne. apply split_join; [exact Hne|].
    rewrite List.Forall_forall in *. intros w Hw. apply Hfree.
    apply vocabulary_In. eapply select_words. exact Hw.
  - intros ->. split; reflexivity.
Qed.

End Formats.

(** ** The cache of the analytic entropy *)

Section Cache.
Context {M : Libm}.
Variables blocksize n_blocks n_words : Z.

Lemma cache0_ok : cache_ok blocksize n_blocks n_words cache0.
Proof.
  unfold cache_ok, cache0. split; [apply lookup_singleton_eq|].
  intros k v H. apply lookup_singleton_Some in H. destruct H as [<- <-].
  reflexivity.
Qed.

(** A call returns the value of the formula and leaves a cache of the
    same kind. *)
Lemma analytic_entropy_ok (cache : gmap Z float) (n : Z) :
  cache_ok blocksize n_blocks n_words cache ->
  (analytic_entropy blocksize n_blocks n_words cache n).1
    = analytic_value blocksize n_blocks n_words n /\
  cache_ok blocksize n_blocks n_words
    (analytic_entropy blocksize n_blocks n_words cache n).2.
Proof.
  intros [Hone Hall]. unfold analytic_entropy.
  destruct (cache !! n) as [v|] eqn:Hn; simpl.
  - split; [apply Hall; exact Hn | split; assumption].
  - assert (n <> 1%Z) as Hne by (intros ->; congruence).
    assert (analytic_value blocksize n_blocks n_words n
            = analytic_entropy_compute blocksize n_blocks n_words n) as Hval.
    { unfold analytic_value. destruct (Z.eqb_spec n 1); [contradiction | reflexivity]. }
    split; [symmetry; exact Hval|]. split.
    + rewrite lookup_insert_ne by exact Hne. exact Hone.
    + intros k v. destruct (decide (n = k)) as [<-|Hk].
      * rewrite lookup_insert_eq. intros [= <-]. symmetry. exact Hval.
      * rewrite lookup_insert_ne by exact Hk. apply Hall.
Qed.

Lemma analytic_from_ok (totals : list Z) (cache : gmap Z float) :
  cache_ok blocksize n_blocks n_words cache ->
  (analytic_from blocksize n_blocks n_words cache totals).1
    = map (analytic_value blocksize n_blocks n_words) totals /\
  cache_ok blocksize n_blocks n_words
    (analytic_from blocksize n_blocks n_words cache totals).2.
Proof.
  revert cache. induction totals as [|n totals IH]; intros cache Hok; simpl.
  - split; [reflexivity | exact Hok].
  - destruct (analytic_entropy_ok cache n Hok) as [Hv Hok'].
    destruct (IH _ Hok') as [Hvs Hok''].
    split; [f_equal; assumption | exact Hok''].
Qed.

(** The ufunc gives every entry of [totals] the value of the formula. *)
Lemma analytic_values (totals : list Z) :
  analytic blocksize n_blocks n_words totals
    = map (analytic_value blocksize n_blocks n_words) totals.
Proof. unfold analytic. apply analytic_from_ok, cache0_ok. Qed.

Lemma arange_Zseq1 (k : Z) : arange 1 (k + 1) = map double (Zseq1 k).
Proof.
  unfold arange, Zseq1. rewrite map_map.
  replace (k + 1 - 1)%Z with k by lia. reflexivity.
Qed.

(** The computed value, written as one sum. *)
Lemma analytic_entropy_compute_sum (n : Z) :
  (1 <= blocksize)%Z -> (1 <= n)%Z ->
  analytic_entropy_compute blocksize n_blocks n_words n =
    (double (- n_blocks) *
     np_sum PrimFloat.add 0
       (map (fun m => let p := (double m / double n)%float in
                      (p * log2 p * marginal_prob blocksize n_words n (double m))%float)
            (Zseq1 (Z.min blocksize n))))%float.
Proof.
  intros Hb Hn. unfold analytic_entropy_compute.
  rewrite arange_Zseq1.
  change (map ?f (map double ?l)) with (f <$> (double <$> l)).
  change (map double ?l) with (double <$> l).
  rewrite zip_with_fmap_l, zip_with_fmap_l, zip_with_fmap_r, zip_with_diag.
  unfold element.
  destruct (Zseq1 (Z.min blocksize n)) as [|m ms] eqn:Hseq.
  - exfalso. unfold Zseq1 in Hseq.
    destruct (Z.to_nat (Z.min blocksize n)) eqn:Hk; [lia | discriminate].
  - reflexivity.
Qed.

(** C1, as the code has it. With a blocksize of at least 1, whatever
    totals the closure was applied to before, the analytic entropy of a
    total [n] is exactly [0.0] when [n = 1], and for [n >= 2] it is
    [-n_blocks] times the sum, over [m] from 1 to [min(blocksize, n)], of
    [(p * log2(p)) * P(m)] with [p = m / n] (the divisor is the total of
    the word and not the blocksize), [P] being the marginal
    probability. *)
Theorem analytic_entropy_formula (earlier : list Z) (n : Z) :
  (1 <= blocksize)%Z ->
  let cache := (analytic_from blocksize n_blocks n_words cache0 earlier).2 in
  let r := (analytic_entropy blocksize n_blocks n_words cache n).1 in
  (n = 1%Z -> r = 0%float) /\
  ((2 <= n)%Z ->
   r = (double (- n_blocks) *
        np_sum PrimFloat.add 0
          (map (fun m => let p := (double m / double n)%float in
                         (p * log2 p * marginal_prob blocksize n_words n (double m))%float)
               (Zseq1 (Z.min blocksize n))))%float).
Proof.
  intros Hb cache r.
  destruct (analytic_from_ok earlier cache0 cache0_ok) as [_ Hok].
  destruct (analytic_entropy_ok cache n Hok) as [Hr _].
  fold r in Hr. rewrite Hr. split.
  - intros ->. reflexivity.
  - intros Hn. unfold analytic_value.
    destruct (Z.eqb_spec n 1) as [|_]; [lia|].
    apply analytic_entropy_compute_sum; lia.
Qed.

End Cache.

(** ** A document of one repeated word *)

(** Adding [0.0] changes nothing but the sign of a negative zero. *)
Lemma zero_add (a : float) :
  (0 + a = a \/ (a = -0 /\ 0 + a = 0))%float.
Proof.
  assert (Prim2SF (0 + a) =
          match Prim2SF a with
          | S754_zero _ => S754_zero false
          | f => f
          end) as H.
  { rewrite add_spec. change (Prim2SF 0) with (S754_zero false).
    destruct (Prim2SF a) as [s|s| |s m e]; try reflexivity.
    destruct s; reflexivity. }
  destruct (Prim2SF a) as [s|s| |s m e] eqn:Ha;
    try (left; apply Prim2SF_inj; rewrite H, Ha; reflexivity).
  destruct s.
  - right. split; apply Prim2SF_inj; [rewrite Ha | rewrite H]; reflexivity.
  - left. apply Prim2SF_inj. rewrite H, Ha. reflexivity.
Qed.

Lemma nodup_repeat (w : string) (n : nat) :
  nodup string_dec (repeat w (S n)) = [w].
Proof.
  induction n as [|n IH]; [reflexivity|].
  change (nodup string_dec (repeat w (S (S n)))) with
    (if in_dec string_dec w (repeat w (S n))
     then nodup string_dec (repeat w (S n))
     else w :: nodup string_dec (repeat w (S n))).
  destruct (in_dec string_dec w (repeat w (S n))) as [_|Hn]; [exact IH|].
  exfalso. apply Hn. left. reflexivity.
Qed.

Lemma vocabulary_repeat (w : string) (n : nat) :
  vocabulary (repeat w (S n)) = [w].
Proof. unfold vocabulary, Py.set. rewrite nodup_repeat. reflexivity. Qed.

(** The matrix of a document of one word that fits in one block. *)
Lemma count_freqs_by_blocks_one_block (w : string) (n blocksize : Z) :
  (1 <= n <= blocksize)%Z ->
  count_freqs_by_blocks (repeat w (Z.to_nat n)) [w] blocksize = Return [[n]].
Proof.
  intros Hn.
  destruct (count_freqs_by_blocks_counted (repeat w (Z.to_nat n)) [w] blocksize)
    as (rows & Hrun & Hrows); [lia | |].
  { intros w' Hw'. apply repeat_spec in Hw'. left. congruence. }
  rewrite Hrun. f_equal.
  assert (Py.range_len 0 (Z.of_nat (length (repeat w (Z.to_nat n)))) blocksize = 1) as Hlen.
  { rewrite repeat_length. apply Nat2Z.inj.
    rewrite range_len_ceil by lia.
    pose proof (ceil_div_bounds (Z.of_nat (Z.to_nat n)) blocksize ltac:(lia)). nia. }
  rewrite Hlen in Hrows. simpl in Hrows.
  inversion Hrows as [|k r ks rs (Hl & Hsum & _) Hnil]; subst.
  inversion Hnil; subst.
  destruct r as [|c [|c' r]]; try discriminate.
  rewrite length_block_at, repeat_length in Hsum.
  unfold Zsum in Hsum. simpl in Hsum. repeat f_equal. lia.
Qed.

Section OneWord.
Context {M : Libm}.

(** C3, as the code has it. For a document that consists of one word
    repeated [n] times and fits in one block ([n <= blocksize]), when
    [log2(1.0)] is [0.0] and the double of [n] divided by itself is [1.0]:
    the observed entropy of the word is exactly [0.0], and its unweighted
    score is [0.0] plus its analytic entropy, which is the analytic
    entropy up to the sign of a zero. *)
Theorem single_word_one_block (w : string) (n blocksize : Z) :
  (1 <= n <= blocksize)%Z ->
  log2 1 = 0%float ->
  (double n / double n = 1)%float ->
  exists a,
    analytic blocksize 1 n [n] = [a] /\
    count_freqs_by_blocks (repeat w (Z.to_nat n)) (vocabulary (repeat w (Z.to_nat n)))
      blocksize = Return [[n]] /\
    observed_entropy [[n]] [n] = [0%float] /\
    entropy_scores [[n]] blocksize false = [(0 + a)%float] /\
    ((0 + a = a)%float \/ (a = (-0)%float /\ (0 + a = 0)%float)).
Proof.
  intros Hn Hlog Hdiv.
  exists (analytic_value blocksize 1 n n).
  assert (Z.to_nat n = S (Z.to_nat (n - 1))) as Hs by lia.
  split; [rewrite analytic_values; reflexivity|]. split.
  { rewrite Hs, vocabulary_repeat, <- Hs.
    apply count_freqs_by_blocks_one_block. exact Hn. }
  assert (observed_entropy [[n]] [n] = [0%float]) as Hobs.
  { unfold observed_entropy. simpl. rewrite Hdiv, Hlog. reflexivity. }
  split; [exact Hobs|]. split; [|apply zero_add].
  unfold entropy_scores. simpl length. simpl sum_axis0. simpl np_sum.
  rewrite Hobs, analytic_values. reflexivity.
Qed.

End OneWord.

(** ** Worked cases

    The library routines of the worked cases are those of [numpy_table],
    the one instance of [Libm] in scope. *)

(** Two doubles that differ in their bits are different values. *)
Lemma float_neq (x y : float) : Prim2SF x <> Prim2SF y -> x <> y.
Proof. intros H ->. apply H. reflexivity. Qed.

(** The ranking on scores given by hand: the threshold drops [d] and the
    [nan] of [e], and the tie of [a] and [c] keeps the order of the
    vocabulary. *)
Example select_example :
  select ["a"; "b"; "c"; "d"; "e"]%string [0.5; 2; 0.5; -1; nan]%float 0
  = [("b", 2); ("a", 0.5); ("c", 0.5)]%string%float.
Proof. vm_compute. reflexivity. Qed.

(** A word listed twice in the vocabulary is counted in its last column
    only: the column sums of C7 need a vocabulary of distinct words. *)
Example repeated_vocabulary_word :
  count_freqs_by_blocks ["a"]%string ["a"; "a"]%string 2 = Return [[0; 1]]%Z.
Proof. vm_compute. reflexivity. Qed.

(** A token outside the vocabulary is a [KeyError]. *)
Example uncovered_token :
  count_freqs_by_blocks ["b"; "a"; "c"]%string ["a"; "b"]%string 2 = Raise KeyError.
Proof. vm_compute. reflexivity. Qed.

(** The conversion of an integer to a double rounds to the nearest one,
    ties to the even one, and has no result from [2^1024 - 2^970] on. *)
Example double_rounds :
  double (2 ^ 53 + 1) = double (2 ^ 53) /\
  double (2 ^ 53 + 3) = double (2 ^ 53 + 4) /\
  double (2 ^ 63 + 2) = double (2 ^ 63) /\
  float_overflows (2 ^ 1024 - 2 ^ 970 - 1) = false /\
  float_overflows (2 ^ 1024 - 2 ^ 970) = true /\
  double (2 ^ 1024 - 2 ^ 970) = infinity.
Proof. repeat split; vm_compute; reflexivity. Qed.

(** "a" twice with a blocksize of [2^1024]: the total 2 is not in the
    cache, and line 126 cannot convert the blocksize. *)
Example huge_blocksize_overflows :
  mz_keywords (fun _ => ["a"; "a"]%string) "a a"%string (2 ^ 1024) false false true
    (Numeric 0)
  = Raise OverflowError.
Proof. vm_compute. reflexivity. Qed.

(** "the" eight times in blocks of two: four blocks of two occurrences. *)
Example the8_counts :
  count_freqs_by_blocks (repeat "the"%string 8) (vocabulary (repeat "the"%string 8)) 2
  = Return [[2]; [2]; [2]; [2]]%Z.
Proof. vm_compute. reflexivity. Qed.

Example the8_observed :
  observed_entropy [[2]; [2]; [2]; [2]]%Z [8%Z] = [(-2)%float].
Proof. vm_compute. reflexivity. Qed.

Example the8_analytic : analytic 2 4 8 [8%Z] = [2%float].
Proof. vm_compute. reflexivity. Qed.

Example the8_scores :
  entropy_scores [[2]; [2]; [2]; [2]]%Z 2 false = [0%float].
Proof. vm_compute. reflexivity. Qed.

(** The formula of the specification on the same case. *)
Example the8_analytic_spec : analytic_entropy_spec 2 4 8 8 = 0%float.
Proof. vm_compute. reflexivity. Qed.

(** C1 does not hold as written: for a word that occurs 8 times in a
    document of 8 tokens cut in 4 blocks of 2, the closure returns [2.0],
    and the sum with [p = m / B] is [0.0]. *)
Lemma analytic_entropy_is_not_spec :
  (analytic_entropy 2 4 8 cache0 8).1 = 2%float /\
  analytic_entropy_spec 2 4 8 8 = 0%float /\
  (analytic_entropy 2 4 8 cache0 8).1 <> analytic_entropy_spec 2 4 8 8.
Proof.
  split; [vm_compute; reflexivity|]. split; [vm_compute; reflexivity|].
  apply float_neq. vm_compute. discriminate.
Qed.

(** An instance of C1 as the code has it. *)
Lemma analytic_entropy_formula_example :
  (analytic_entropy 2 4 8 cache0 8).1 =
    (double (-4) *
     np_sum PrimFloat.add 0
       (map (fun m => let p := (double m / double 8)%float in
                      (p * log2 p * marginal_prob 2 8 8 (double m))%float)
            (Zseq1 (Z.min 2 8))))%float.
Proof.
  apply (proj2 (analytic_entropy_formula (M := numpy_table) 2 4 8 [] 8 ltac:(lia))).
  lia.
Defined.



(** C3 does not hold as written: for "the" eight times with blocksize 2
    the observed entropy is [-2.0], the analytic entropy is [2.0] and the
    unweighted score is [0.0]; the observed entropy is not [0], and the
    score is not the analytic entropy. *)
Lemma single_word_four_blocks :
  count_freqs_by_blocks (repeat "the"%string 8) (vocabulary (repeat "the"%string 8)) 2
    = Return [[2]; [2]; [2]; [2]]%Z /\
  observed_entropy [[2]; [2]; [2]; [2]]%Z [8%Z] = [(-2)%float] /\
  analytic 2 4 8 [8%Z] = [2%float] /\
  entropy_scores [[2]; [2]; [2]; [2]]%Z 2 false = [0%float] /\
  PrimFloat.eqb (-2) 0 = false /\
  PrimFloat.eqb 0 2 = false.
Proof. repeat split; vm_compute; reflexivity. Qed.

(** An instance of C3 as the code has it: "the" twice in one block. *)
Lemma single_word_one_block_example :
  exists a,
    analytic 2 1 2 [2%Z] = [a] /\
    count_freqs_by_blocks (repeat "the"%string 2) (vocabulary (repeat "the"%string 2)) 2
      = Return [[2%Z]] /\
    observed_entropy [[2%Z]] [2%Z] = [0%float] /\
    entropy_scores [[2%Z]] 2 false = [(0 + a)%float] /\
    ((0 + a = a)%float \/ (a = (-0)%float /\ (0 + a = 0)%float)).
Proof.
  apply (single_word_one_block (M := numpy_table) "the"%string 2 2).
  - lia.
  - reflexivity.
  - vm_compute. reflexivity.
Defined.

(** An instance of C4: three words of score [0.0] above the threshold
    [-1]. *)
Lemma mz_keywords_scores_above_threshold_example :
  Forall (fun ws : string * float => PrimFloat.ltb (-1) ws.2 = true)
    [("a", 0); ("b", 0); ("c", 0)]%string%float.
Proof.
  apply (mz_keywords_scores_above_threshold (M := numpy_table)
           (fun _ => ["b"; "a"; "c"]%string) "b a c"%string 1 false true (Numeric (-1))).
  vm_compute. reflexivity.
Defined.

(** An instance of C5: the three words of "b a c" have the score [0.0],
    and the tie keeps the order of the vocabulary. *)
Lemma mz_keywords_ranked_example :
  exists rows weights,
    count_freqs_by_blocks ["b"; "a"; "c"]%string (vocabulary ["b"; "a"; "c"]%string) 1
      = Return rows /\
    Scored [("a", 0); ("b", 0); ("c", 0)]%string%float = format weights true false /\
    List.NoDup (map fst weights) /\
    (forall w s,
        In (w, s) weights <->
        (exists j, vocabulary ["b"; "a"; "c"]%string !! j = Some w /\
                   entropy_scores rows 1 true !! j = Some s) /\
        PrimFloat.ltb (resolve_threshold (Numeric (-1)) (Z.of_nat (length rows))) s = true) /\
    StronglySorted
      (fun a b => PrimFloat.ltb b.2 a.2 = true \/
                  (PrimFloat.eqb a.2 b.2 = true /\ String_as_OT.lt a.1 b.1))
      weights.
Proof.
  apply (mz_keywords_ranked (M := numpy_table)
           (fun _ => ["b"; "a"; "c"]%string) "b a c"%string 1 true false true (Numeric (-1))).
  vm_compute. reflexivity.
Defined.

(** C8 does not hold as written: with the default threshold [0.0] the
    document "a" has no keyword; the string returned is empty and splits
    into one empty string, and the list returned is empty. *)
Lemma split_of_empty_is_not_empty :
  mz_keywords (fun _ => ["a"%string]) "a"%string 1 false false true (Numeric 0)
    = Return (Joined EmptyString) /\
  mz_keywords (fun _ => ["a"%string]) "a"%string 1 false true true (Numeric 0)
    = Return (Words []) /\
  Py.split newline EmptyString = [EmptyString] /\
  Py.split newline EmptyString <> [].
Proof. repeat split; try (vm_compute; reflexivity). discriminate. Qed.

(** An instance of C8 as the code has it. *)
Lemma mz_keywords_split_of_joined_example :
  Py.split newline (Py.join (String newline EmptyString) ["a"; "b"; "c"]%string)
  = ["a"; "b"; "c"]%string.
Proof.
  refine (proj1 (mz_keywords_split_of_joined (M := numpy_table)
                   (fun _ => ["b"; "a"; "c"]%string) "b a c"%string 1 true (Numeric (-1))
                   _ ["a"; "b"; "c"]%string _ _ _) _).
  - repeat constructor; unfold free_of; simpl; intuition discriminate.
  - vm_compute. reflexivity.
  - vm_compute. reflexivity.
  - discriminate.
Defined.

(** An instance of C10: the document "a" under the default threshold. *)
Lemma mz_keywords_no_keyword_example :
  mz_keywords (fun _ => ["a"%string]) "a"%string 1 false false true (Numeric 0)
  = Return (Joined EmptyString).
Proof.
  apply (mz_keywords_no_keyword (M := numpy_table)
           (fun _ => ["a"%string]) "a"%string 1 false false true (Numeric 0)).
  - discriminate.
  - lia.
  - reflexivity.
  - intros rows H. vm_compute in H. injection H as <-.
    vm_compute. repeat constructor.
Defined.

(** * Further properties of the block frequency counter *)

(** ** The dictionary, position by position *)

Lemma word2ind_None (vocab : list string) (w : string) :
  word2ind vocab !! w = None <-> ~ In w vocab.
Proof.
  split.
  - intros Hnone Hin. destruct (word2ind_In vocab w Hin) as (j & Hj). congruence.
  - intros Hnot. destruct (word2ind vocab !! w) as [j|] eqn:Hj; [|reflexivity].
    exfalso. apply Hnot. apply word2ind_Some in Hj.
    apply list_elem_of_In. eapply list_elem_of_lookup_2. exact Hj.
Qed.

Lemma word2ind_later (vocab : list string) (w : string) (j k : nat) :
  word2ind vocab !! w = Some j -> j < k -> vocab !! k <> Some w.
Proof.
  revert j k. induction vocab as [|x vocab IH] using rev_ind; intros j k Hj Hjk Hk.
  - rewrite lookup_nil in Hk. discriminate.
  - rewrite word2ind_snoc in Hj. destruct (decide (x = w)) as [->|Hne].
    + rewrite lookup_insert_eq in Hj. injection Hj as <-.
      apply lookup_lt_Some in Hk. rewrite length_app in Hk. simpl in Hk. lia.
    + rewrite lookup_insert_ne in Hj by assumption.
      destruct (decide (k < length vocab)) as [Hlt|Hge].
      * rewrite lookup_app_l in Hk by assumption. exact (IH j k Hj Hjk Hk).
      * pose proof (lookup_lt_Some _ _ _ Hk) as Hlen.
        rewrite length_app in Hlen. simpl in Hlen.
        assert (k = length vocab) as -> by lia.
        rewrite lookup_app_r, Nat.sub_diag in Hk by lia. simpl in Hk. congruence.
Qed.

Lemma word2ind_of_last (vocab : list string) (w : string) (j : nat) :
  vocab !! j = Some w -> (forall k, j < k -> vocab !! k <> Some w) ->
  word2ind vocab !! w = Some j.
Proof.
  intros Hj Hlast.
  destruct (word2ind_In vocab w) as (j' & Hj').
  { apply list_elem_of_In. eapply list_elem_of_lookup_2. exact Hj. }
  rewrite Hj'. f_equal.
  destruct (Nat.lt_trichotomy j j') as [Hlt|[Heq|Hgt]]; [|lia|].
  - exfalso. apply (Hlast j' Hlt). apply word2ind_Some. exact Hj'.
  - exfalso. exact (word2ind_later vocab w j' j Hj' Hgt Hj).
Qed.

(** X1. [word2ind] maps a word to the last position at which the vocabulary
    lists it, and has no entry for a word that the vocabulary does not
    list. *)
Theorem word2ind_last_position (vocab : list string) (w : string) :
  (forall j, word2ind vocab !! w = Some j <->
             vocab !! j = Some w /\ forall k, j < k -> vocab !! k <> Some w) /\
  (word2ind vocab !! w = None <-> ~ In w vocab).
Proof.
  split; [|apply word2ind_None].
  intros j. split.
  - intros Hj. split; [apply word2ind_Some; exact Hj|].
    intros k Hk. exact (word2ind_later vocab w j k Hj Hk).
  - intros [Hj Hlast]. apply word2ind_of_last; assumption.
Qed.

(** ** Exceptions *)

Lemma count_word_length (vocab : list string) (counts : list Z) (w : string) :
  length counts = length vocab ->
  match count_word (word2ind vocab) counts w with
  | Return counts' => In w vocab /\ length counts' = length vocab
  | Raise e => e = KeyError /\ ~ In w vocab
  end.
Proof.
  intros Hlen. unfold count_word.
  destruct (word2ind vocab !! w) as [j|] eqn:Hj.
  - pose proof (word2ind_Some vocab w j Hj) as Hvj.
    destruct (lookup_lt_is_Some_2 counts j) as (c & Hc).
    { rewrite Hlen. eapply lookup_lt_Some. exact Hvj. }
    rewrite Hc. split.
    + apply list_elem_of_In. eapply list_elem_of_lookup_2. exact Hvj.
    + rewrite length_insert. exact Hlen.
  - split; [reflexivity|]. apply word2ind_None. exact Hj.
Qed.

(** The inner loop stops with [KeyError] at the first token that the
    vocabulary does not list. *)
Lemma count_block_from (vocab block : list string) (counts : list Z) :
  length counts = length vocab ->
  match foldM (count_word (word2ind vocab)) counts block with
  | Return counts' => Forall (fun w => In w vocab) block /\ length counts' = length vocab
  | Raise e => e = KeyError /\ Exists (fun w => ~ In w vocab) block
  end.
Proof.
  revert counts. induction block as [|w block IH]; intros counts Hlen; simpl.
  - split; [constructor | exact Hlen].
  - pose proof (count_word_length vocab counts w Hlen) as Hw.
    destruct (count_word (word2ind vocab) counts w) as [e|counts']; simpl.
    + destruct Hw as [-> Hw]. split; [reflexivity|]. constructor. exact Hw.
    + destruct Hw as [Hw Hlen'].
      specialize (IH counts' Hlen').
      destruct (foldM (count_word (word2ind vocab)) counts' block) as [e|counts''].
      * destruct IH as [-> IH]. split; [reflexivity|]. apply Exists_cons_tl. exact IH.
      * destruct IH as [IH Hlen'']. split; [|exact Hlen''].
        constructor; assumption.
Qed.

Lemma count_block_outcome (vocab block : list string) :
  match count_block (word2ind vocab) (length vocab) block with
  | Return counts => Forall (fun w => In w vocab) block /\ length counts = length vocab
  | Raise e => e = KeyError /\ Exists (fun w => ~ In w vocab) block
  end.
Proof. apply count_block_from. apply repeat_length. Qed.

(** The outer loop: the matrix, or the exception of the first block that
    holds a token outside the vocabulary. *)
Lemma forM_count_block (vocab : list string) (blocks : list (list string)) :
  match forM (count_block (word2ind vocab) (length vocab)) blocks with
  | Return rows => Forall (Forall (fun w => In w vocab)) blocks
  | Raise e => e = KeyError /\ Exists (Exists (fun w => ~ In w vocab)) blocks
  end.
Proof.
  induction blocks as [|block blocks IH]; simpl.
  - constructor.
  - pose proof (count_block_outcome vocab block) as Hb.
    destruct (count_block (word2ind vocab) (length vocab) block) as [e|counts]; simpl.
    + destruct Hb as [-> Hb]. split; [reflexivity|]. constructor. exact Hb.
    + destruct Hb as [Hb _].
      destruct (forM (count_block (word2ind vocab) (length vocab)) blocks) as [e|rows]; simpl.
      * destruct IH as [-> IH]. split; [reflexivity|]. apply Exists_cons_tl. exact IH.
      * constructor; assumption.
Qed.

(** For a positive [blocksize] the rows are the counts of the blocks. *)
Lemma count_freqs_by_blocks_blocks (words vocab : list string) (blocksize : Z) :
  (1 <= blocksize)%Z ->
  count_freqs_by_blocks words vocab blocksize =
    forM (count_block (word2ind vocab) (length vocab))
         (block_at words (Z.to_nat blocksize)
            <$> seq 0 (Py.range_len 0 (Z.of_nat (length words)) blocksize)).
Proof.
  intros Hb. unfold count_freqs_by_blocks.
  rewrite range_blocks by lia. simpl. rewrite forM_map.
  change (@fmap list _ _ _ (block_at words (Z.to_nat blocksize))) with
    (map (block_at words (Z.to_nat blocksize))).
  rewrite forM_map.
  generalize (seq 0 (Py.range_len 0 (Z.of_nat (length words)) blocksize)).
  intros l. induction l as [|k l IH]; simpl; [reflexivity|].
  rewrite slice_block by lia. rewrite IH. reflexivity.
Qed.

(** The blocks of a positive [blocksize] make up the token sequence. *)
Lemma concat_blocks (words : list string) (blocksize : Z) :
  (1 <= blocksize)%Z ->
  concat (block_at words (Z.to_nat blocksize)
            <$> seq 0 (Py.range_len 0 (Z.of_nat (length words)) blocksize)) = words.
Proof.
  intros Hb. rewrite firstn_blocks. apply firstn_all2.
  pose proof (range_len_covers (Z.of_nat (length words)) blocksize ltac:(lia) Hb).
  nia.
Qed.

Lemma range_len_negative (len b : Z) :
  (0 <= len)%Z -> (b < 0)%Z -> Py.range_len 0 len b = 0.
Proof.
  intros Hlen Hb. unfold Py.range_len.
  destruct (Z.ltb_spec 0 b) as [|_]; [lia|].
  destruct (Z.ltb_spec len 0) as [|_]; [lia | reflexivity].
Qed.

Lemma Forall_concat_In {A : Type} (P : A -> Prop) (ls : list (list A)) :
  Forall (Forall P) ls <-> Forall P (concat ls).
Proof.
  induction ls as [|l ls IH]; simpl.
  - split; constructor.
  - rewrite List.Forall_app, <- IH. split.
    + intros H. inversion H; subst. auto.
    + intros [H1 H2]. constructor; assumption.
Qed.

Lemma Exists_concat_In {A : Type} (P : A -> Prop) (ls : list (list A)) :
  Exists (Exists P) ls <-> Exists P (concat ls).
Proof.
  induction ls as [|l ls IH]; simpl.
  - split; intros H; inversion H.
  - rewrite List.Exists_app, <- IH. split.
    + intros H. inversion H; subst; auto.
    + intros [H|H]; [apply Exists_cons_hd | apply Exists_cons_tl]; assumption.
Qed.

(** What [count_freqs_by_blocks] does, by the sign of [blocksize]. *)
Lemma count_freqs_by_blocks_cases (words vocab : list string) (blocksize : Z) :
  match count_freqs_by_blocks words vocab blocksize with
  | Return rows =>
      ((blocksize < 0)%Z /\ rows = []) \/
      ((1 <= blocksize)%Z /\ Forall (fun w => In w vocab) words)
  | Raise e =>
      (e = ValueError /\ blocksize = 0%Z) \/
      (e = KeyError /\ (1 <= blocksize)%Z /\ Exists (fun w => ~ In w vocab) words)
  end.
Proof.
  destruct (Z.lt_trichotomy blocksize 0) as [Hneg|[->|Hpos]].
  - unfold count_freqs_by_blocks, Py.range.
    destruct (Z.eqb_spec blocksize 0) as [|_]; [lia|].
    rewrite range_len_negative by lia. simpl. left. split; [assumption | reflexivity].
  - unfold count_freqs_by_blocks, Py.range. simpl. left. split; reflexivity.
  - rewrite count_freqs_by_blocks_blocks by lia.
    pose proof (forM_count_block vocab
                  (block_at words (Z.to_nat blocksize)
                     <$> seq 0 (Py.range_len 0 (Z.of_nat (length words)) blocksize)))
      as H.
    destruct (forM _ _) as [e|rows].
    + right. destruct H as [-> H]. split; [reflexivity|]. split; [lia|].
      apply Exists_concat_In in H. rewrite concat_blocks in H by lia. exact H.
    + right. split; [lia|].
      apply Forall_concat_In in H. rewrite concat_blocks in H by lia. exact H.
Qed.

(** X2. [count_freqs_by_blocks] raises [KeyError] exactly when [blocksize]
    is at least 1 and some token is not listed in the vocabulary. *)
Theorem count_freqs_by_blocks_KeyError (words vocab : list string) (blocksize : Z) :
  count_freqs_by_blocks words vocab blocksize = Raise KeyError <->
  (1 <= blocksize)%Z /\ exists w, In w words /\ ~ In w vocab.
Proof.
  pose proof (count_freqs_by_blocks_cases words vocab blocksize) as H.
  split.
  - intros Hk. rewrite Hk in H.
    destruct H as [[Hv _]|(_ & Hb & Hex)]; [discriminate|].
    split; [exact Hb|]. apply List.Exists_exists in Hex. exact Hex.
  - intros (Hb & w & Hw & Hnot).
    destruct (count_freqs_by_blocks words vocab blocksize) as [e|rows].
    + destruct H as [[_ ->]|[-> _]]; [lia | reflexivity].
    + exfalso. destruct H as [[Hneg _]|[_ Hall]]; [lia|].
      rewrite List.Forall_forall in Hall. exact (Hnot (Hall w Hw)).
Qed.

(** X3. The exceptions of [count_freqs_by_blocks] are the [ValueError] of
    [range], raised exactly when [blocksize] is 0, and [KeyError]: the
    index that [word2ind] gives is always inside the row of counts. *)
Theorem count_freqs_by_blocks_exceptions (words vocab : list string) (blocksize : Z) :
  (count_freqs_by_blocks words vocab blocksize = Raise ValueError <-> blocksize = 0%Z) /\
  (forall e, count_freqs_by_blocks words vocab blocksize = Raise e ->
             e = ValueError \/ e = KeyError).
Proof.
  pose proof (count_freqs_by_blocks_cases words vocab blocksize) as H.
  split; [split|].
  - intros Hv. rewrite Hv in H.
    destruct H as [[_ Hb]|[Hk _]]; [exact Hb | discriminate].
  - intros ->. reflexivity.
  - intros e He. rewrite He in H. destruct H as [[-> _]|[-> _]]; auto.
Qed.

(** X4. With a negative [blocksize] the loop over [range] runs no block:
    the matrix is empty whatever the tokens and the vocabulary are, and a
    token outside the vocabulary goes unnoticed. *)
Theorem count_freqs_by_blocks_negative_blocksize
    (words vocab : list string) (blocksize : Z) :
  (blocksize < 0)%Z -> count_freqs_by_blocks words vocab blocksize = Return [].
Proof.
  intros Hneg.
  pose proof (count_freqs_by_blocks_cases words vocab blocksize) as H.
  destruct (count_freqs_by_blocks words vocab blocksize) as [e|rows].
  - destruct H as [[_ ->]|(_ & Hb & _)]; lia.
  - destruct H as [[_ ->]|[Hb _]]; [reflexivity | lia].
Qed.

(** X5. For a vocabulary of distinct words that covers the tokens and a
    [blocksize] of at least 1, entry [j] of row [k] of the matrix is the
    number of occurrences of word [j] among the tokens
    [words[k * blocksize : (k + 1) * blocksize]]. *)
Theorem count_freqs_by_blocks_entries (words vocab : list string) (blocksize : Z) :
  (1 <= blocksize)%Z ->
  List.NoDup vocab ->
  (forall w, In w words -> In w vocab) ->
  exists rows,
    count_freqs_by_blocks words vocab blocksize = Return rows /\
    forall k r j w, rows !! k = Some r -> vocab !! j = Some w ->
      r !! j = Some (Z.of_nat (count_occ string_dec
                                 (block_at words (Z.to_nat blocksize) k) w)).
Proof.
  intros Hb Hnd Hcover.
  destruct (count_freqs_by_blocks_counted words vocab blocksize Hb Hcover)
    as (rows & Hrun & Hrows).
  exists rows. split; [exact Hrun|].
  intros k r j w Hk Hj.
  destruct (Forall2_lookup_r _ _ _ _ _ Hrows Hk) as (k' & Hk' & (_ & _ & Hcol)).
  apply lookup_seq in Hk'. destruct Hk' as [Hk' _]. simpl in Hk'. subst k'.
  exact (Hcol Hnd j w Hj).
Qed.

(** ** A vocabulary that lists a word twice *)

Lemma foldM_Return_invariant {A B : Type} (f : B -> A -> py B) (I : B -> Prop) :
  (forall b a b', I b -> f b a = Return b' -> I b') ->
  forall l b b', I b -> foldM f b l = Return b' -> I b'.
Proof.
  intros Hstep l. induction l as [|a l IH]; intros b b' Hb H; simpl in H.
  - injection H as <-. exact Hb.
  - apply bind_Return in H. destruct H as (b1 & Hf & H). eauto.
Qed.

Lemma forM_Return_Forall2 {A B : Type} (f : A -> py B) (l : list A) (bs : list B) :
  forM f l = Return bs -> Forall2 (fun a b => f a = Return b) l bs.
Proof.
  revert bs. induction l as [|a l IH]; intros bs H; simpl in H.
  - injection H as <-. constructor.
  - apply bind_Return in H. destruct H as (b & Hf & H).
    apply bind_Return in H. destruct H as (bs' & Hm & H).
    injection H as <-. constructor; auto.
Qed.

Lemma count_block_shadowed (vocab block : list string) (counts : list Z)
    (j k : nat) (w : string) :
  vocab !! j = Some w -> vocab !! k = Some w -> j < k ->
  count_block (word2ind vocab) (length vocab) block = Return counts ->
  counts !! j = Some 0%Z.
Proof.
  intros Hj Hk Hjk. unfold count_block.
  apply (foldM_Return_invariant (count_word (word2ind vocab))
           (fun counts => counts !! j = Some 0%Z)).
  - intros c x c' Hc. unfold count_word.
    destruct (word2ind vocab !! x) as [j0|] eqn:Hx; [|discriminate].
    destruct (c !! j0) as [v|] eqn:Hv; [|discriminate].
    intros H. injection H as <-.
    rewrite list_lookup_insert_ne; [exact Hc|].
    intros ->. pose proof (word2ind_Some vocab x j Hx) as Hjx.
    assert (x = w) as -> by congruence.
    exact (word2ind_later vocab w j k Hx Hjk Hk).
  - apply lookup_repeat_0. eapply lookup_lt_Some. exact Hj.
Qed.

(** X6. When the vocabulary lists a word more than once, only the column
    of its last position counts it: in every row of a returned matrix the
    entry at an earlier position of the word is 0. *)
Theorem count_freqs_by_blocks_repeated_word
    (words vocab : list string) (blocksize : Z) (rows : list (list Z))
    (j k : nat) (w : string) :
  count_freqs_by_blocks words vocab blocksize = Return rows ->
  vocab !! j = Some w -> vocab !! k = Some w -> j < k ->
  Forall (fun r => r !! j = Some 0%Z) rows.
Proof.
  intros Hrun Hj Hk Hjk.
  pose proof (count_freqs_by_blocks_cases words vocab blocksize) as H.
  rewrite Hrun in H. destruct H as [[_ ->]|[Hb _]]; [constructor|].
  rewrite count_freqs_by_blocks_blocks in Hrun by exact Hb.
  apply forM_Return_Forall2 in Hrun.
  eapply Forall2_Forall_r; [exact Hrun|].
  apply List.Forall_forall. intros block _ r Hr.
  exact (count_block_shadowed vocab block r j k w Hj Hk Hjk Hr).
Qed.

(** ** The totals of [mz_keywords] *)

Lemma fold_left_Zadd (l : list Z) (a : Z) : fold_left Z.add l a = (a + Zsum l)%Z.
Proof.
  revert a. induction l as [|x l IH]; intros a; simpl.
  - unfold Zsum. simpl. lia.
  - rewrite IH. unfold Zsum. simpl. lia.
Qed.

Lemma np_sum_Zsum (l : list Z) : np_sum Z.add 0%Z l = Zsum l.
Proof.
  destruct l as [|x l]; [reflexivity|]. simpl. rewrite fold_left_Zadd.
  unfold Zsum. reflexivity.
Qed.

Lemma Zsum_zip_with (a b : list Z) :
  length a = length b -> Zsum (zip_with Z.add a b) = (Zsum a + Zsum b)%Z.
Proof.
  revert b. induction a as [|x a IH]; intros [|y b] H; simpl in *; try discriminate.
  - reflexivity.
  - injection H as H. unfold Zsum in *. simpl. rewrite (IH b H). lia.
Qed.

Lemma Zsum_fold_zip_with (rows : list (list Z)) (acc : list Z) :
  Forall (fun r => length r = length acc) rows ->
  Zsum (fold_left (zip_with Z.add) rows acc) = (Zsum acc + Zsum (map Zsum rows))%Z.
Proof.
  revert acc. induction rows as [|r rows IH]; intros acc Hrows; simpl.
  - unfold Zsum. simpl. lia.
  - inversion Hrows as [|? ? Hr Hrows']; subst.
    rewrite IH.
    + rewrite Zsum_zip_with by auto. unfold Zsum. simpl. lia.
    + rewrite length_zip_with, Hr, Nat.min_id. exact Hrows'.
Qed.

Lemma Zsum_sum_axis0 (rows : list (list Z)) (n : nat) :
  Forall (fun r => length r = n) rows ->
  Zsum (sum_axis0 Z.add rows) = Zsum (map Zsum rows).
Proof.
  destruct rows as [|r rows]; [reflexivity|]. simpl. intros Hrows.
  inversion Hrows as [|? ? Hr Hrows']; subst.
  rewrite Zsum_fold_zip_with by exact Hrows'. unfold Zsum. reflexivity.
Qed.

Lemma Zsum_rows_counted (vocab : list string) (blocks : list (list string))
    (rows : list (list Z)) :
  Forall2 (counted vocab) blocks rows ->
  Zsum (map Zsum rows) = Z.of_nat (length (concat blocks)).
Proof.
  induction 1 as [|block r blocks rows (_ & Hsum & _) _ IH].
  - reflexivity.
  - simpl. rewrite length_app. unfold Zsum in *. simpl. rewrite IH, Hsum. lia.
Qed.

Lemma sum_axis0_length (rows : list (list Z)) (n : nat) :
  rows <> [] -> Forall (fun r => length r = n) rows ->
  length (sum_axis0 Z.add rows) = n.
Proof.
  destruct rows as [|r rows]; [contradiction|]. simpl. intros _ Hrows.
  inversion Hrows as [|? ? Hr Hrows']; subst.
  apply fold_zip_with_length; [reflexivity | exact Hrows'].
Qed.

(** The matrix of a covered token sequence: its shape, and its rows as the
    counts of the blocks. *)
Lemma count_freqs_by_blocks_matrix (words vocab : list string) (blocksize : Z) :
  (1 <= blocksize)%Z ->
  (forall w, In w words -> In w vocab) ->
  exists rows,
    count_freqs_by_blocks words vocab blocksize = Return rows /\
    length rows = Py.range_len 0 (Z.of_nat (length words)) blocksize /\
    Forall (fun r => length r = length vocab) rows /\
    Forall2 (counted vocab)
      (block_at words (Z.to_nat blocksize)
         <$> seq 0 (Py.range_len 0 (Z.of_nat (length words)) blocksize)) rows.
Proof.
  intros Hb Hcover.
  destruct (count_freqs_by_blocks_counted words vocab blocksize Hb Hcover)
    as (rows & Hrun & Hrows).
  exists rows. split; [exact Hrun|]. split; [|split].
  - apply Forall2_length in Hrows. rewrite length_seq in Hrows. auto.
  - eapply Forall2_Forall_r; [exact Hrows|].
    apply List.Forall_forall. intros k _ r (Hl & _). exact Hl.
  - apply Forall2_fmap_l. exact Hrows.
Qed.

Lemma rows_nonempty (words : list string) (blocksize : Z) :
  words <> [] -> (1 <= blocksize)%Z ->
  Py.range_len 0 (Z.of_nat (length words)) blocksize <> 0.
Proof.
  intros Hne Hb.
  pose proof (range_len_covers (Z.of_nat (length words)) blocksize ltac:(lia) Hb).
  destruct words; [contradiction|]. simpl length in *. nia.
Qed.

(** The totals of a matrix that counts the blocks of a vocabulary of
    distinct words. *)
Lemma totals_counted (vocab : list string) (blocks : list (list string))
    (rows : list (list Z)) :
  rows <> [] ->
  List.NoDup vocab ->
  Forall2 (counted vocab) blocks rows ->
  sum_axis0 Z.add rows =
    map (fun w => Z.of_nat (count_occ string_dec (concat blocks) w)) vocab.
Proof.
  intros Hrne Hnd Hrows.
  assert (Forall (fun r => length r = length vocab) rows) as Hwidth.
  { eapply Forall2_Forall_r; [exact Hrows|].
    apply List.Forall_forall. intros k _ r (Hl & _). exact Hl. }
  apply list_eq_same_length with (length vocab).
  - apply length_map.
  - apply sum_axis0_length; assumption.
  - intros j t c Hj Ht Hc.
    destruct (sum_axis0_lookup rows _ j t Hwidth Ht) as [_ ->].
    rewrite list_lookup_fmap in Hc.
    destruct (vocab !! j) as [w|] eqn:Hw; [|discriminate].
    injection Hc as <-.
    exact (column_sum_counted vocab _ rows j w Hnd Hw Hrows).
Qed.

(** X7. In [mz_keywords], for a non-empty token sequence and a [blocksize]
    of at least 1, the vector [totals] of line 62 has one entry per
    vocabulary word, in the order of the vocabulary, and the entry is the
    number of occurrences of the word in the whole token sequence. *)
Theorem mz_keywords_totals (words : list string) (blocksize : Z) :
  words <> [] ->
  (1 <= blocksize)%Z ->
  exists rows,
    count_freqs_by_blocks words (vocabulary words) blocksize = Return rows /\
    sum_axis0 Z.add rows =
      map (fun w => Z.of_nat (count_occ string_dec words w)) (vocabulary words).
Proof.
  intros Hne Hb.
  destruct (count_freqs_by_blocks_matrix words (vocabulary words) blocksize Hb)
    as (rows & Hrun & Hlen & _ & Hrows).
  { intros w Hw. apply vocabulary_In. exact Hw. }
  exists rows. split; [exact Hrun|].
  assert (rows <> []) as Hrne.
  { intros ->. exact (rows_nonempty words blocksize Hne Hb (eq_sym Hlen)). }
  rewrite (totals_counted _ _ rows Hrne (vocabulary_NoDup words) Hrows).
  rewrite concat_blocks by exact Hb. reflexivity.
Qed.

(** X8. For a vocabulary that covers the tokens and a [blocksize] of at
    least 1, the entries of [totals] add up to the number of tokens:
    [n_words] of line 63 is [len(words)]. *)
Theorem n_words_is_number_of_tokens (words vocab : list string) (blocksize : Z) :
  (1 <= blocksize)%Z ->
  (forall w, In w words -> In w vocab) ->
  exists rows,
    count_freqs_by_blocks words vocab blocksize = Return rows /\
    np_sum Z.add 0%Z (sum_axis0 Z.add rows) = Z.of_nat (length words).
Proof.
  intros Hb Hcover.
  destruct (count_freqs_by_blocks_matrix words vocab blocksize Hb Hcover)
    as (rows & Hrun & _ & Hwidth & Hrows).
  exists rows. split; [exact Hrun|].
  rewrite np_sum_Zsum, (Zsum_sum_axis0 rows _ Hwidth).
  rewrite (Zsum_rows_counted vocab _ rows Hrows).
  rewrite concat_blocks by exact Hb. reflexivity.
Qed.

(** * Further properties of the vocabulary and of the selection *)

(** ** Sorted lists *)

(** Two arrangements of the same elements that are both sorted by an
    asymmetric relation are the same list. *)
Lemma StronglySorted_unique {A : Type} (R : A -> A -> Prop) (l1 l2 : list A) :
  (forall a b, R a b -> R b a -> False) ->
  StronglySorted R l1 -> StronglySorted R l2 -> Permutation l1 l2 -> l1 = l2.
Proof.
  intros Hasym. revert l2. induction l1 as [|a l1 IH]; intros l2 H1 H2 Hp.
  - apply Permutation_nil in Hp. auto.
  - destruct l2 as [|b l2].
    { symmetry in Hp. apply Permutation_nil in Hp. discriminate. }
    apply StronglySorted_inv in H1, H2.
    destruct H1 as [H1 Ha], H2 as [H2 Hb].
    assert (a = b) as <-.
    { assert (In a (b :: l2)) as Hin1
        by (eapply Permutation_in; [exact Hp | left; reflexivity]).
      assert (In b (a :: l1)) as Hin2
        by (eapply Permutation_in; [symmetry; exact Hp | left; reflexivity]).
      destruct Hin1 as [->|Hin1]; [reflexivity|].
      destruct Hin2 as [->|Hin2]; [reflexivity|].
      rewrite List.Forall_forall in Ha, Hb.
      exfalso. exact (Hasym a b (Ha b Hin2) (Hb a Hin1)). }
    f_equal. apply IH; [assumption | assumption|].
    eapply Permutation_cons_inv. exact Hp.
Qed.

Lemma string_lt_asym (a b : string) :
  String_as_OT.lt a b -> String_as_OT.lt b a -> False.
Proof.
  intros Hab Hba.
  exact (String_as_OT.lt_not_eq _ _ (String_as_OT.lt_trans _ _ _ Hab Hba) eq_refl).
Qed.

(** ** The vocabulary *)

(** X9. The vocabulary [sorted(set(words))] lists exactly the words that
    occur among the tokens, each once, in strictly increasing order of
    their code points. *)
Theorem vocabulary_sorted_distinct_words (words : list string) :
  StronglySorted String_as_OT.lt (vocabulary words) /\
  List.NoDup (vocabulary words) /\
  forall w, In w (vocabulary words) <-> In w words.
Proof.
  split; [apply vocabulary_sorted|]. split; [apply vocabulary_NoDup|].
  intros w. apply vocabulary_In.
Qed.

Lemma vocabulary_same_words (words words' : list string) :
  (forall w, In w words <-> In w words') -> vocabulary words = vocabulary words'.
Proof.
  intros Hsame.
  apply (StronglySorted_unique String_as_OT.lt).
  - apply string_lt_asym.
  - apply vocabulary_sorted.
  - apply vocabulary_sorted.
  - apply Stdlib.Sorting.Permutation.NoDup_Permutation; [apply vocabulary_NoDup | apply vocabulary_NoDup|].
    intros w. rewrite !vocabulary_In. apply Hsame.
Qed.

(** X10. The vocabulary depends on the set of words only: two token
    sequences have the same vocabulary exactly when the same words occur
    in them, in whatever order and number. *)
Theorem vocabulary_of_same_words (words words' : list string) :
  vocabulary words = vocabulary words' <-> (forall w, In w words <-> In w words').
Proof.
  split.
  - intros Heq w. rewrite <- (vocabulary_In words w), <- (vocabulary_In words' w), Heq.
    reflexivity.
  - apply vocabulary_same_words.
Qed.

(** ** What [mz_keywords] does, by the sign of [blocksize] *)

Section Outcome.
Context {M : Libm}.

Lemma mz_keywords_words_cases (words : list string) (blocksize : Z)
    (scores split weighted : bool) (threshold : threshold_arg) :
  match mz_keywords_words words blocksize scores split weighted threshold with
  | Return out => words <> [] /\ (1 <= blocksize)%Z
  | Raise e =>
      (e = ValueError /\ blocksize = 0%Z) \/
      (e = AttributeError /\ ((blocksize < 0)%Z \/ ((1 <= blocksize)%Z /\ words = []))) \/
      (e = OverflowError /\ words <> [] /\ (2 ^ 1024 - 2 ^ 970 <= blocksize)%Z)
  end.
Proof.
  destruct (mz_keywords_words words blocksize scores split weighted threshold)
    as [e|out] eqn:Hrun.
  - unfold mz_keywords_words in Hrun.
    pose proof (count_freqs_by_blocks_cases words (vocabulary words) blocksize) as Hc.
    destruct (count_freqs_by_blocks words (vocabulary words) blocksize) as [e'|rows] eqn:Hr;
      simpl in Hrun.
    + injection Hrun as <-. destruct Hc as [Hc|(_ & _ & Hex)]; [left; exact Hc|].
      exfalso. apply List.Exists_exists in Hex. destruct Hex as (w & Hw & Hnot).
      apply Hnot, vocabulary_In, Hw.
    + destruct (count_freqs_by_blocks_Return _ _ _ _ Hr) as (_ & Hlen).
      destruct rows as [|r rows].
      * injection Hrun as <-. right. left. split; [reflexivity|].
        destruct Hc as [[Hneg _]|[Hb _]]; [left; exact Hneg|]. right. split; [exact Hb|].
        destruct words as [|w words]; [reflexivity|]. exfalso.
        exact (rows_nonempty (w :: words) blocksize ltac:(discriminate) Hb (eq_sym Hlen)).
      * destruct (calls_marginal _ _) eqn:Hcalls; simpl in Hrun;
          [|discriminate].
        destruct (float_overflows blocksize) eqn:Hover; [|discriminate].
        injection Hrun as <-. right. right. split; [reflexivity|].
        unfold float_overflows in Hover. apply Z.leb_le in Hover.
        assert (1 <= blocksize)%Z as Hb.
        { apply existsb_exists in Hcalls. destruct Hcalls as (n & _ & Hn).
          apply andb_true_iff in Hn. destruct Hn as [_ Hn]. apply Z.leb_le in Hn. lia. }
        split; [|lia].
        intros ->. simpl in Hlen. unfold Py.range_len in Hlen.
        destruct (0 <? blocksize)%Z eqn:Hpos; [|apply Z.ltb_ge in Hpos; lia].
        simpl in Hlen. discriminate.
  - apply mz_keywords_words_Return in Hrun. tauto.
Qed.


(** X12. The vocabulary that [mz_keywords] builds covers the tokens, so
    the dictionary lookup of [count_freqs_by_blocks] cannot fail in it:
    [mz_keywords] raises neither [KeyError] nor [IndexError], whatever the
    text and the arguments are. *)
Theorem mz_keywords_never_KeyError
    (tokenize : string -> list string) (text : string) (blocksize : Z)
    (scores split weighted : bool) (threshold : threshold_arg) :
  mz_keywords tokenize text blocksize scores split weighted threshold <> Raise KeyError /\
  mz_keywords tokenize text blocksize scores split weighted threshold <> Raise IndexError.
Proof.
  unfold mz_keywords.
  pose proof (mz_keywords_words_cases (tokenize text) blocksize scores split weighted
                threshold) as H.
  split; intros Hrun; rewrite Hrun in H; destruct H as [[H _]|[[H _]|[H _]]]; discriminate.
Qed.


End Outcome.

(** ** The selection *)

Lemma leb_rank (x y : float) :
  PrimFloat.leb x y = true <->
  exists a b, rank x = Some a /\ rank y = Some b /\ (lt3 a b \/ a = b).
Proof.
  rewrite leb_spec. unfold SFleb, rank.
  pose proof (SFcompare_rank (Prim2SF x) (Prim2SF y)) as H.
  destruct (SFcompare (Prim2SF x) (Prim2SF y)) as [[| |]|].
  - destruct H as (a & b & Ha & Hb & ->). split; eauto 7.
  - destruct H as (a & b & Ha & Hb & Hlt). split; eauto 7.
  - destruct H as (a & b & Ha & Hb & Hgt). split; [discriminate|].
    intros (a' & b' & Ha' & Hb' & Hle). unfold lt3 in *.
    assert (a' = a) by congruence. assert (b' = b) by congruence. subst.
    destruct Hle as [Hle| ->]; lia.
  - split; [discriminate|]. intros (a & b & Ha & Hb & _).
    destruct H; congruence.
Qed.

(** What exceeds a threshold exceeds every lower one. *)
Lemma leb_ltb_trans (t1 t2 s : float) :
  PrimFloat.leb t1 t2 = true -> PrimFloat.ltb t2 s = true -> PrimFloat.ltb t1 s = true.
Proof.
  intros H1 H2. apply leb_rank in H1. apply ltb_rank in H2. apply ltb_rank.
  destruct H1 as (a & b & Ha & Hb & Hab), H2 as (b' & c & Hb' & Hc & Hbc).
  assert (b' = b) by congruence. subst.
  exists a, c. split; [exact Ha|]. split; [exact Hc|].
  destruct Hab as [Hab| ->]; [|exact Hbc]. unfold lt3 in *. lia.
Qed.

Lemma ranked_asym (a b : string * float) : ranked a b -> ranked b a -> False.
Proof.
  unfold ranked. intros [Hab|[Hab Hw]] [Hba|[Hba Hw']].
  - apply ltb_asym in Hab. congruence.
  - apply ltb_rank in Hab. apply eqb_rank in Hba.
    destruct Hab as (x & y & Hx & Hy & Hlt), Hba as (z & Hz1 & Hz2).
    assert (x = z) by congruence. assert (y = z) by congruence. subst.
    unfold lt3 in Hlt. lia.
  - apply ltb_rank in Hba. apply eqb_rank in Hab.
    destruct Hba as (x & y & Hx & Hy & Hlt), Hab as (z & Hz1 & Hz2).
    assert (x = z) by congruence. assert (y = z) by congruence. subst.
    unfold lt3 in Hlt. lia.
  - exact (string_lt_asym _ _ Hw Hw').
Qed.

Lemma filter_Permutation' {A : Type} (f : A -> bool) (l l' : list A) :
  Permutation l l' -> Permutation (List.filter f l) (List.filter f l').
Proof.
  induction 1 as [|x l l' _ IH|x y l|l l' l'' _ IH1 _ IH2]; simpl.
  - constructor.
  - destruct (f x); [constructor|]; exact IH.
  - destruct (f x), (f y); try reflexivity. apply perm_swap.
  - etransitivity; eassumption.
Qed.

Lemma filter_filter_impl {A : Type} (f g : A -> bool) (l : list A) :
  (forall x, f x = true -> g x = true) ->
  List.filter f (List.filter g l) = List.filter f l.
Proof.
  intros Hfg. induction l as [|x l IH]; simpl; [reflexivity|].
  destruct (g x) eqn:Hg; simpl.
  - rewrite IH. reflexivity.
  - destruct (f x) eqn:Hf; [|exact IH]. rewrite (Hfg x Hf) in Hg. discriminate.
Qed.

(** Raising the threshold removes pairs from the ranking and moves none. *)
Lemma select_raise (vocab : list string) (h : list float) (t1 t2 : float) :
  StronglySorted String_as_OT.lt vocab ->
  PrimFloat.leb t1 t2 = true ->
  select vocab h t2 =
    List.filter (fun ws => PrimFloat.ltb t2 ws.2) (select vocab h t1).
Proof.
  intros Hvocab Hle.
  apply (StronglySorted_unique ranked).
  - apply ranked_asym.
  - apply select_sorted. exact Hvocab.
  - apply StronglySorted_filter, select_sorted. exact Hvocab.
  - etransitivity; [apply select_Permutation|].
    etransitivity;
      [|apply filter_Permutation'; symmetry; apply (select_Permutation vocab h t1)].
    rewrite filter_filter_impl; [reflexivity|].
    intros ws. apply leb_ltb_trans. exact Hle.
Qed.

Section Selection.
Context {M : Libm}.

(** X14. The keywords that [mz_keywords] returns as a list are words of the
    text, and no word is returned twice. *)
Theorem mz_keywords_distinct_words_of_text
    (tokenize : string -> list string) (text : string) (blocksize : Z)
    (weighted : bool) (threshold : threshold_arg) (l : list string) :
  mz_keywords tokenize text blocksize false true weighted threshold = Return (Words l) ->
  List.NoDup l /\ forall w, In w l -> In w (tokenize text).
Proof.
  unfold mz_keywords. intros H.
  apply mz_keywords_words_Return in H.
  destruct H as (_ & _ & rows & _ & _ & Hout).
  simpl in Hout. injection Hout as ->. split.
  - apply select_NoDup, vocabulary_NoDup.
  - intros w Hw. apply vocabulary_In. eapply select_words. exact Hw.
Qed.

(** X15. The pairs that [mz_keywords] returns are exactly the pairs of a
    vocabulary word and its score [h[j]] in which the score exceeds the
    resolved threshold: no word above the threshold is left out. *)
Theorem mz_keywords_selects_exactly
    (tokenize : string -> list string) (text : string) (blocksize : Z)
    (split weighted : bool) (threshold : threshold_arg) (l : list (string * float)) :
  mz_keywords tokenize text blocksize true split weighted threshold = Return (Scored l) ->
  exists rows,
    count_freqs_by_blocks (tokenize text) (vocabulary (tokenize text)) blocksize
      = Return rows /\
    forall w s,
      In (w, s) l <->
      (exists j, vocabulary (tokenize text) !! j = Some w /\
                 entropy_scores rows blocksize weighted !! j = Some s) /\
      PrimFloat.ltb (resolve_threshold threshold (Z.of_nat (length rows))) s = true.
Proof.
  unfold mz_keywords. intros H.
  apply mz_keywords_words_Return in H.
  destruct H as (_ & _ & rows & Hrows & Hlen & Hout).
  simpl in Hout. injection Hout as ->.
  exists rows. split; [exact Hrows|].
  intros w s. rewrite Hlen. apply select_In.
Qed.

(** X16. Raising a numeric threshold removes keywords and changes
    nothing else: the ranking returned for the higher threshold is the one
    returned for the lower threshold without the pairs whose score does not
    exceed the higher threshold, in the same order. *)
Theorem mz_keywords_threshold_monotone
    (tokenize : string -> list string) (text : string) (blocksize : Z)
    (split weighted : bool) (t1 t2 : float) (l1 l2 : list (string * float)) :
  PrimFloat.leb t1 t2 = true ->
  mz_keywords tokenize text blocksize true split weighted (Numeric t1)
    = Return (Scored l1) ->
  mz_keywords tokenize text blocksize true split weighted (Numeric t2)
    = Return (Scored l2) ->
  l2 = List.filter (fun ws => PrimFloat.ltb t2 ws.2) l1.
Proof.
  unfold mz_keywords. intros Hle H1 H2.
  apply mz_keywords_words_Return in H1, H2.
  destruct H1 as (_ & _ & rows & Hrows & _ & H1).
  destruct H2 as (_ & _ & rows' & Hrows' & _ & H2).
  assert (rows' = rows) as -> by congruence.
  simpl in H1, H2. injection H1 as ->. injection H2 as ->.
  apply select_raise; [apply vocabulary_sorted | exact Hle].
Qed.

End Selection.

(** ** The order of the tokens inside a block *)

Lemma foldM_Return_invariant_done {A B : Type} (f : B -> A -> py B)
    (I : B -> list A -> Prop) :
  (forall b done a b', I b done -> f b a = Return b' -> I b' (done ++ [a])) ->
  forall l done b b', I b done -> foldM f b l = Return b' -> I b' (done ++ l).
Proof.
  intros Hstep l. induction l as [|a l IH]; intros done b b' Hb H; simpl in H.
  - injection H as <-. rewrite app_nil_r. exact Hb.
  - apply bind_Return in H. destruct H as (b1 & Hf & H).
    replace (done ++ a :: l) with ((done ++ [a]) ++ l) by (rewrite <- app_assoc; reflexivity).
    eapply IH; [|exact H]. eapply Hstep; eassumption.
Qed.

(** Whatever the vocabulary is, entry [j] of the counts of a block is the
    number of its tokens that the dictionary sends to [j]. *)
Lemma count_block_sent_to (vocab block : list string) (counts : list Z) :
  count_block (word2ind vocab) (length vocab) block = Return counts ->
  length counts = length vocab /\
  forall j, j < length vocab ->
    counts !! j = Some (Z.of_nat (length (sent_to vocab j block))).
Proof.
  unfold count_block. intros H.
  apply (foldM_Return_invariant_done (count_word (word2ind vocab))
           (fun counts done =>
              length counts = length vocab /\
              forall j, j < length vocab ->
                counts !! j = Some (Z.of_nat (length (sent_to vocab j done)))))
    with (done := []) in H; [exact H| |].
  - clear. intros counts done w counts' [Hlen Hent]. unfold count_word.
    destruct (word2ind vocab !! w) as [j0|] eqn:Hw; [|discriminate].
    destruct (counts !! j0) as [c|] eqn:Hc; [|discriminate].
    intros H. injection H as <-. split; [rewrite length_insert; exact Hlen|].
    intros j Hj. unfold sent_to. rewrite List.filter_app, length_app. simpl.
    destruct (decide (j0 = j)) as [->|Hne].
    + rewrite list_lookup_insert_eq by (rewrite Hlen; exact Hj).
      rewrite bool_decide_eq_true_2 by exact Hw. simpl.
      rewrite (Hent j Hj) in Hc. injection Hc as <-. unfold sent_to. f_equal. lia.
    + rewrite list_lookup_insert_ne by exact Hne.
      rewrite bool_decide_eq_false_2 by congruence. simpl.
      rewrite (Hent j Hj). unfold sent_to. f_equal. lia.
  - split; [apply repeat_length|]. intros j Hj. apply lookup_repeat_0. exact Hj.
Qed.

Lemma count_block_Permutation (vocab block block' : list string) :
  Permutation block block' ->
  count_block (word2ind vocab) (length vocab) block =
  count_block (word2ind vocab) (length vocab) block'.
Proof.
  intros Hp.
  pose proof (count_block_outcome vocab block) as H.
  pose proof (count_block_outcome vocab block') as H'.
  destruct (count_block (word2ind vocab) (length vocab) block) as [e|counts] eqn:Hc,
           (count_block (word2ind vocab) (length vocab) block') as [e'|counts'] eqn:Hc'.
  - destruct H as [-> _], H' as [-> _]. reflexivity.
  - exfalso. destruct H as [_ Hex], H' as [Hall _].
    apply List.Exists_exists in Hex. destruct Hex as (w & Hw & Hnot).
    rewrite List.Forall_forall in Hall. apply Hnot, Hall.
    eapply Permutation_in; eassumption.
  - exfalso. destruct H' as [_ Hex], H as [Hall _].
    apply List.Exists_exists in Hex. destruct Hex as (w & Hw & Hnot).
    rewrite List.Forall_forall in Hall. apply Hnot, Hall.
    eapply Permutation_in; [symmetry|]; eassumption.
  - f_equal.
    apply count_block_sent_to in Hc, Hc'.
    destruct Hc as [Hlen Hent], Hc' as [Hlen' Hent'].
    apply list_eq_same_length with (length vocab); [exact Hlen' | exact Hlen|].
    intros j x y Hj Hx Hy.
    rewrite (Hent j Hj) in Hx. rewrite (Hent' j Hj) in Hy.
    injection Hx as <-. injection Hy as <-.
    f_equal. apply Permutation_length.
    unfold sent_to. apply filter_Permutation'. exact Hp.
Qed.

Lemma concat_Permutation {A B : Type} (f g : A -> list B) (l : list A) :
  (forall k, Permutation (f k) (g k)) ->
  Permutation (concat (f <$> l)) (concat (g <$> l)).
Proof.
  intros Hfg. induction l as [|k l IH]; simpl; [constructor|].
  apply Permutation_app; [apply Hfg | exact IH].
Qed.

(** Token sequences with the same blocks, up to the order inside a block,
    have the same tokens. *)
Lemma blocks_Permutation (words words' : list string) (b : nat) :
  1 <= b ->
  (forall k, Permutation (block_at words b k) (block_at words' b k)) ->
  Permutation words words'.
Proof.
  intros Hb Hblocks.
  pose proof (concat_Permutation (block_at words b) (block_at words' b)
                (seq 0 (Nat.max (length words) (length words'))) Hblocks) as H.
  rewrite !firstn_blocks in H.
  rewrite !firstn_all2 in H by nia. exact H.
Qed.

Lemma forM_ext {A B : Type} (f g : A -> py B) (l : list A) :
  (forall a, f a = g a) -> forM f l = forM g l.
Proof.
  intros Hfg. induction l as [|a l IH]; simpl; [reflexivity|].
  rewrite Hfg, IH. reflexivity.
Qed.

(** The outer loop over the blocks of two token sequences of the same
    length. *)
Lemma forM_count_block_Permutation (words words' vocab : list string) (b : nat)
    (ks : list nat) :
  (forall k, Permutation (block_at words b k) (block_at words' b k)) ->
  forM (count_block (word2ind vocab) (length vocab)) (block_at words b <$> ks) =
  forM (count_block (word2ind vocab) (length vocab)) (block_at words' b <$> ks).
Proof.
  intros Hblocks.
  change (@fmap list _ _ _) with (@map nat (list string)).
  rewrite !forM_map. apply forM_ext. intros k.
  apply count_block_Permutation, Hblocks.
Qed.

(** X17. The matrix depends on which tokens a block holds and not on their
    order: two token sequences whose blocks hold the same tokens, each as
    many times, give the same outcome of [count_freqs_by_blocks], whatever
    the vocabulary is. *)
Theorem count_freqs_by_blocks_order_within_blocks
    (words words' vocab : list string) (blocksize : Z) :
  (1 <= blocksize)%Z ->
  (forall k, Permutation (block_at words (Z.to_nat blocksize) k)
                         (block_at words' (Z.to_nat blocksize) k)) ->
  count_freqs_by_blocks words vocab blocksize =
  count_freqs_by_blocks words' vocab blocksize.
Proof.
  intros Hb Hblocks.
  rewrite !count_freqs_by_blocks_blocks by exact Hb.
  assert (length words = length words') as <-.
  { apply Permutation_length.
    apply (blocks_Permutation words words' (Z.to_nat blocksize)); [lia | exact Hblocks]. }
  apply forM_count_block_Permutation, Hblocks.
Qed.

(** X18. [mz_keywords] does not see the order of the tokens inside a
    block: two texts whose blocks of [blocksize] tokens hold the same tokens,
    each as many times, get the same result. *)
Theorem mz_keywords_order_within_blocks {M : Libm}
    (tokenize : string -> list string) (text text' : string) (blocksize : Z)
    (scores split weighted : bool) (threshold : threshold_arg) :
  (1 <= blocksize)%Z ->
  (forall k, Permutation (block_at (tokenize text) (Z.to_nat blocksize) k)
                         (block_at (tokenize text') (Z.to_nat blocksize) k)) ->
  mz_keywords tokenize text blocksize scores split weighted threshold =
  mz_keywords tokenize text' blocksize scores split weighted threshold.
Proof.
  intros Hb Hblocks. unfold mz_keywords, mz_keywords_words.
  assert (Permutation (tokenize text) (tokenize text')) as Hp
    by (apply (blocks_Permutation _ _ (Z.to_nat blocksize)); [lia | exact Hblocks]).
  rewrite (vocabulary_same_words (tokenize text) (tokenize text')).
  - rewrite !count_freqs_by_blocks_blocks by exact Hb.
    rewrite (Permutation_length Hp).
    rewrite (forM_count_block_Permutation (tokenize text) (tokenize text')
               _ (Z.to_nat blocksize) _ Hblocks).
    reflexivity.
  - intros w. split; apply Permutation_in; [exact Hp | symmetry; exact Hp].
Qed.

(** ** Arithmetic on zeros *)

Lemma is_zero_0 : is_zero 0.
Proof. exists false. reflexivity. Qed.

Lemma is_nan_spec (x : float) :
  PrimFloat.is_nan x = true <-> Prim2SF x = S754_nan.
Proof.
  unfold PrimFloat.is_nan. rewrite FloatAxioms.eqb_spec. unfold SFeqb.
  destruct (Prim2SF x) as [s|s| |s m e]; simpl.
  - split; discriminate.
  - destruct s; simpl; split; discriminate.
  - split; reflexivity.
  - rewrite Z.compare_refl, Pos.compare_cont_refl. destruct s; simpl;
      split; discriminate.
Qed.

(** The product of a zero and any double is a zero, or [nan]. *)
Lemma mul_zero_l (a x : float) :
  is_zero a -> is_zero (a * x) \/ Prim2SF (a * x) = S754_nan.
Proof.
  intros [s Ha]. unfold is_zero. rewrite mul_spec, Ha. unfold SF64mul, SFmul.
  destruct (Prim2SF x) as [sx|sx| |sx mx ex]; eauto.
Qed.

Lemma nan_to_num_nan (y : float) : Prim2SF y = S754_nan -> nan_to_num y = 0%float.
Proof.
  intros Hy. unfold nan_to_num.
  rewrite (proj2 (is_nan_spec y) Hy). reflexivity.
Qed.

Lemma nan_to_num_zero (y : float) : is_zero y -> nan_to_num y = y.
Proof.
  intros [s Hy]. unfold nan_to_num.
  destruct (PrimFloat.is_nan y) eqn:Hn.
  { apply is_nan_spec in Hn. congruence. }
  rewrite !FloatAxioms.eqb_spec, Hy. reflexivity.
Qed.

(** [nan_to_num(0 * x)] is a zero whatever [x] is: a count of 0
    contributes nothing, whatever [log2] returns at 0. *)
Lemma nan_to_num_mul_zero (x : float) : is_zero (nan_to_num (0 * x)).
Proof.
  destruct (mul_zero_l 0 x is_zero_0) as [Hz|Hn].
  - rewrite nan_to_num_zero; assumption.
  - rewrite nan_to_num_nan by exact Hn. apply is_zero_0.
Qed.

Lemma add_zeros (a b : float) : is_zero a -> is_zero b -> is_zero (a + b).
Proof.
  intros [sa Ha] [sb Hb]. unfold is_zero. rewrite add_spec, Ha, Hb.
  destruct sa, sb; simpl; eauto.
Qed.

Lemma add_zero_0 (a : float) : is_zero a -> (a + 0 = 0)%float.
Proof.
  intros [sa Ha]. apply Prim2SF_inj. rewrite add_spec, Ha.
  destruct sa; reflexivity.
Qed.

(** A threshold that [0.0] does not exceed is exceeded by no zero and by
    no [nan]. *)
Lemma ltb_zero_or_nan (t s : float) :
  PrimFloat.ltb t 0 = false ->
  is_zero s \/ Prim2SF s = S754_nan ->
  PrimFloat.ltb t s = false.
Proof.
  rewrite !ltb_spec. unfold SFltb. intros Ht [[sg Hs]|Hs]; rewrite Hs.
  - change (Prim2SF 0) with (S754_zero false) in Ht.
    destruct (Prim2SF t) as [st|st| |st mt et]; simpl in *; auto.
  - destruct (Prim2SF t); reflexivity.
Qed.

(** ** Sums down a column *)

Lemma zip_with_map_r {A B C : Type} (f : A -> B -> C) (g : A -> B) (l : list A) :
  zip_with f l (map g l) = map (fun x => f x (g x)) l.
Proof. induction l as [|x l IH]; simpl; [reflexivity | rewrite IH; reflexivity]. Qed.

Section Observed.
Context {M : Libm}.

Lemma observed_entropy_terms (word_counts : list (list Z)) (totals : list Z) :
  observed_entropy word_counts totals =
    sum_axis0 PrimFloat.add
      (map (fun row => zip_with observed_term row totals) word_counts).
Proof.
  unfold observed_entropy. f_equal.
  rewrite zip_with_map_r, !map_map.
  apply map_ext. intros row.
  rewrite zip_with_map_r, map_map.
  generalize totals. induction row as [|c row IH]; intros [|t ts]; simpl;
    try reflexivity.
  rewrite IH. reflexivity.
Qed.

End Observed.

Section Columns.
Context {A : Type}.
Variable add : A -> A -> A.

Lemma fold_zip_with_length' (rows : list (list A)) (acc : list A) (n : nat) :
  length acc = n -> Forall (fun r => length r = n) rows ->
  length (fold_left (zip_with add) rows acc) = n.
Proof using Type.
  revert acc. induction rows as [|r rows IH]; intros acc Hacc Hrows; simpl.
  - exact Hacc.
  - inversion Hrows as [|? ? Hr Hrows']; subst. apply IH; [|exact Hrows'].
    rewrite length_zip_with. lia.
Qed.

Lemma sum_axis0_length' (rows : list (list A)) (n : nat) :
  rows <> [] -> Forall (fun r => length r = n) rows ->
  length (sum_axis0 add rows) = n.
Proof using Type.
  destruct rows as [|r rows]; [contradiction|]. simpl. intros _ Hrows.
  inversion Hrows as [|? ? Hr Hrows']; subst.
  apply fold_zip_with_length'; [reflexivity | exact Hrows'].
Qed.

Variable P : A -> Prop.
Hypothesis P_add : forall a b, P a -> P b -> P (add a b).

Lemma fold_zip_with_column (rows : list (list A)) (acc : list A) (j : nat) :
  (exists x, acc !! j = Some x /\ P x) ->
  Forall (fun r => exists x, r !! j = Some x /\ P x) rows ->
  exists x, fold_left (zip_with add) rows acc !! j = Some x /\ P x.
Proof using P_add.
  revert acc. induction rows as [|r rows IH]; intros acc Hacc Hrows; simpl.
  - exact Hacc.
  - inversion Hrows as [|? ? (y & Hy & Py) Hrows']; subst.
    destruct Hacc as (x & Hx & Px).
    apply IH; [|exact Hrows'].
    exists (add x y). rewrite lookup_zip_with, Hx, Hy. simpl. auto.
Qed.

(** A property of the entries of column [j] that sums keep holds of
    entry [j] of [sum(axis=0)]. *)
Lemma sum_axis0_column (rows : list (list A)) (j : nat) :
  rows <> [] ->
  Forall (fun r => exists x, r !! j = Some x /\ P x) rows ->
  exists x, sum_axis0 add rows !! j = Some x /\ P x.
Proof using P_add.
  destruct rows as [|r rows]; [contradiction|]. simpl. intros _ Hrows.
  inversion Hrows as [|? ? Hr Hrows']; subst.
  apply fold_zip_with_column; assumption.
Qed.

End Columns.

(** * The scores *)

Section Scores.
Context {M : Libm}.

(** Entry [j] of the vector [h], from the observed term and the total of
    word [j]. *)
Lemma entropy_scores_lookup (rows : list (list Z)) (blocksize : Z) (weighted : bool)
    (j : nat) (o : float) (t : Z) :
  let totals := sum_axis0 Z.add rows in
  let n_words := np_sum Z.add 0%Z totals in
  observed_entropy rows totals !! j = Some o ->
  totals !! j = Some t ->
  entropy_scores rows blocksize weighted !! j =
    Some (let h := (o + analytic_value blocksize (Z.of_nat (length rows)) n_words t)%float in
          if weighted then (h * (double t / double n_words))%float else h).
Proof.
  intros totals n_words Ho Ht. unfold entropy_scores. fold totals. fold n_words.
  assert (zip_with PrimFloat.add (observed_entropy rows totals)
            (analytic blocksize (Z.of_nat (length rows)) n_words totals) !! j
          = Some (o + analytic_value blocksize (Z.of_nat (length rows)) n_words t)%float)
    as Hh.
  { rewrite lookup_zip_with, Ho, analytic_values, list_lookup_fmap, Ht. reflexivity. }
  destruct weighted.
  - rewrite lookup_zip_with, Hh, list_lookup_fmap, Ht. reflexivity.
  - exact Hh.
Qed.

Lemma observed_terms_width (rows : list (list Z)) (totals : list Z) (n : nat) :
  length totals = n -> Forall (fun r => length r = n) rows ->
  Forall (fun r => length r = n)
         (map (fun row => zip_with observed_term row totals) rows).
Proof.
  intros Ht Hrows. apply List.Forall_map.
  eapply List.Forall_impl; [|exact Hrows].
  intros r Hr. simpl in *. rewrite length_zip_with, Hr, Ht. apply Nat.min_id.
Qed.

Lemma entropy_scores_length (rows : list (list Z)) (blocksize : Z) (weighted : bool)
    (n : nat) :
  rows <> [] -> Forall (fun r => length r = n) rows ->
  length (entropy_scores rows blocksize weighted) = n.
Proof.
  intros Hne Hrows.
  pose proof (sum_axis0_length rows n Hne Hrows) as Ht.
  assert (length (observed_entropy rows (sum_axis0 Z.add rows)) = n) as Ho.
  { rewrite observed_entropy_terms. apply sum_axis0_length'.
    - destruct rows; [contradiction | discriminate].
    - apply observed_terms_width; assumption. }
  unfold entropy_scores.
  destruct weighted; rewrite !length_zip_with, ?length_map, Ho, analytic_values,
    length_map, Ht; lia.
Qed.

(** X19. On a non-empty token sequence and a [blocksize] of at least 1,
    the vector of scores has one entry per vocabulary word: [zip(vocab, h)]
    pairs every word with a score and leaves none out. *)
Theorem mz_keywords_one_score_per_word (words : list string) (blocksize : Z)
    (weighted : bool) :
  words <> [] ->
  (1 <= blocksize)%Z ->
  exists rows,
    count_freqs_by_blocks words (vocabulary words) blocksize = Return rows /\
    length (entropy_scores rows blocksize weighted) = length (vocabulary words).
Proof.
  intros Hne Hb.
  destruct (count_freqs_by_blocks_matrix words (vocabulary words) blocksize Hb)
    as (rows & Hrun & Hlen & Hwidth & _).
  { intros w Hw. apply vocabulary_In. exact Hw. }
  exists rows. split; [exact Hrun|].
  apply entropy_scores_length; [|exact Hwidth].
  intros ->. exact (rows_nonempty words blocksize Hne Hb (eq_sym Hlen)).
Qed.

(** ** A word that occurs once *)

Lemma count_occ_le_1_column (vocab : list string) (blocks : list (list string))
    (rows : list (list Z)) (j : nat) (w : string) :
  List.NoDup vocab -> vocab !! j = Some w ->
  Forall2 (counted vocab) blocks rows ->
  count_occ string_dec (concat blocks) w <= 1 ->
  Forall (fun r => r !! j = Some 0%Z \/ r !! j = Some 1%Z) rows.
Proof.
  intros Hnd Hj. induction 1 as [|blk r blocks rows (_ & _ & Hcol) _ IH]; intros Hle.
  - constructor.
  - simpl in Hle. rewrite count_occ_app in Hle. constructor.
    + rewrite (Hcol Hnd j w Hj).
      destruct (count_occ string_dec blk w) as [|[|n]]; [left | right | lia]; reflexivity.
    + apply IH. lia.
Qed.

Hypothesis log2_1 : log2 1 = 0%float.

Lemma observed_term_0_1 : is_zero (observed_term 0 1).
Proof.
  unfold observed_term.
  change (double 0 / double 1)%float with 0%float.
  apply nan_to_num_mul_zero.
Qed.

Lemma observed_term_1_1 : is_zero (observed_term 1 1).
Proof using log2_1.
  unfold observed_term.
  change (double 1 / double 1)%float with 1%float.
  rewrite log2_1. exists false. reflexivity.
Qed.

(** The score of a word that occurs once: [0.0] when the scores are not
    weighted, and a zero or [nan] when they are. *)
Lemma hapax_score (words : list string) (blocksize : Z) (weighted : bool) (w : string) :
  (1 <= blocksize)%Z ->
  count_occ string_dec words w = 1 ->
  exists rows j s,
    count_freqs_by_blocks words (vocabulary words) blocksize = Return rows /\
    vocabulary words !! j = Some w /\
    entropy_scores rows blocksize weighted !! j = Some s /\
    (if weighted then is_zero s \/ Prim2SF s = S754_nan else s = 0%float).
Proof using log2_1.
  intros Hb Hocc.
  assert (In w words) as Hin by (apply (count_occ_In string_dec); lia).
  assert (words <> []) as Hne by (intros ->; destruct Hin).
  destruct (count_freqs_by_blocks_matrix words (vocabulary words) blocksize Hb)
    as (rows & Hrun & Hlen & Hwidth & Hrows).
  { intros x Hx. apply vocabulary_In. exact Hx. }
  assert (rows <> []) as Hrne.
  { intros ->. exact (rows_nonempty words blocksize Hne Hb (eq_sym Hlen)). }
  assert (In w (vocabulary words)) as Hv by (apply vocabulary_In; exact Hin).
  apply list_elem_of_In, list_elem_of_lookup in Hv. destruct Hv as (j & Hj).
  pose proof (totals_counted _ _ rows Hrne (vocabulary_NoDup words) Hrows) as Htot.
  rewrite concat_blocks in Htot by exact Hb.
  assert (sum_axis0 Z.add rows !! j = Some 1%Z) as Ht.
  { rewrite Htot, list_lookup_fmap, Hj. simpl. rewrite Hocc. reflexivity. }
  assert (exists o, observed_entropy rows (sum_axis0 Z.add rows) !! j = Some o /\ is_zero o)
    as (o & Ho & Hz).
  { rewrite observed_entropy_terms.
    apply (sum_axis0_column PrimFloat.add is_zero add_zeros).
    - destruct rows; [contradiction | discriminate].
    - apply List.Forall_map.
      pose proof (count_occ_le_1_column (vocabulary words) _ rows j w
                    (vocabulary_NoDup words) Hj Hrows) as Hcol.
      rewrite concat_blocks in Hcol by exact Hb.
      eapply List.Forall_impl; [|apply Hcol; lia].
      intros r Hr. simpl. rewrite lookup_zip_with, Ht.
      destruct Hr as [-> | ->]; simpl; eexists; (split; [reflexivity|]).
      + apply observed_term_0_1.
      + apply observed_term_1_1. }
  exists rows, j. eexists. split; [exact Hrun|]. split; [exact Hj|].
  split; [apply (entropy_scores_lookup rows blocksize weighted j o 1 Ho Ht)|].
  unfold analytic_value. simpl. rewrite add_zero_0 by exact Hz.
  destruct weighted; [|reflexivity].
  apply mul_zero_l, is_zero_0.
Qed.

(** X20. With [log2(1) = 0], the unweighted score of a word that occurs
    once in the text is exactly [0.0], whatever the other words, the
    [blocksize] and the value of [log2] at 0 are: its observed term is a
    sum of zeros and its analytic entropy is the special case of the
    cache. *)
Theorem hapax_unweighted_score_is_zero (words : list string) (blocksize : Z) (w : string) :
  (1 <= blocksize)%Z ->
  count_occ string_dec words w = 1 ->
  exists rows j,
    count_freqs_by_blocks words (vocabulary words) blocksize = Return rows /\
    vocabulary words !! j = Some w /\
    entropy_scores rows blocksize false !! j = Some 0%float.
Proof using log2_1.
  intros Hb Hocc.
  destruct (hapax_score words blocksize false w Hb Hocc)
    as (rows & j & s & Hrun & Hj & Hs & ->).
  eauto.
Qed.

(** X21. With [log2(1) = 0], a word that occurs once in the text is not a
    keyword for any numeric threshold that [0.0] does not exceed (the
    default [0.0] is one), with weighted scores or without. *)
Theorem hapax_is_no_keyword
    (tokenize : string -> list string) (text : string) (blocksize : Z)
    (weighted : bool) (t : float) (w : string) (l : list string) :
  PrimFloat.ltb t 0 = false ->
  count_occ string_dec (tokenize text) w = 1 ->
  mz_keywords tokenize text blocksize false true weighted (Numeric t) = Return (Words l) ->
  ~ In w l.
Proof using log2_1.
  unfold mz_keywords. intros Ht Hocc Hrun Hin.
  apply mz_keywords_words_Return in Hrun.
  destruct Hrun as (Hb & _ & rows & Hrows & _ & Hout).
  simpl in Hout. injection Hout as ->.
  apply in_map_iff in Hin. destruct Hin as ([w' s] & Hw' & Hin).
  simpl in Hw'. subst w'.
  apply select_In in Hin. destruct Hin as [(j & Hj & Hs) Habove].
  destruct (hapax_score (tokenize text) blocksize weighted w Hb Hocc)
    as (rows' & j' & s' & Hrows' & Hj' & Hs' & Hzero).
  assert (rows' = rows) as -> by congruence.
  assert (j' = j) as ->.
  { eapply NoDup_lookup; [|exact Hj' | exact Hj].
    apply NoDup_ListNoDup, vocabulary_NoDup. }
  assert (s' = s) as -> by congruence.
  assert (PrimFloat.ltb t s = false) as Hnot.
  { apply ltb_zero_or_nan; [exact Ht|].
    destruct weighted; [exact Hzero|]. subst s. left. apply is_zero_0. }
  congruence.
Qed.

(** ** A text that fits in one block *)

Lemma zip_with_observed_term_diag (row : list Z) :
  Forall (fun c => (double c / double c = 1)%float) row ->
  zip_with observed_term row row = map (fun _ => 0%float) row.
Proof using log2_1.
  induction 1 as [|c row Hc _ IH]; simpl; [reflexivity|].
  rewrite IH. f_equal. unfold observed_term. rewrite Hc, log2_1. reflexivity.
Qed.

(** X22. With [log2(1) = 0] and [n / n = 1] for the counts [n] up to the
    length of the text, the observed term of every word of a text that
    fits in one block is [0.0]: each word has all its occurrences in the
    one block. *)
Theorem single_block_observed_entropy (words : list string) (blocksize : Z) :
  words <> [] ->
  (Z.of_nat (length words) <= blocksize)%Z ->
  (forall n, (1 <= n <= Z.of_nat (length words))%Z -> (double n / double n = 1)%float) ->
  exists row,
    count_freqs_by_blocks words (vocabulary words) blocksize = Return [row] /\
    length row = length (vocabulary words) /\
    observed_entropy [row] (sum_axis0 Z.add [row]) = map (fun _ => 0%float) row.
Proof using log2_1.
  intros Hne Hfit Hdiv.
  assert (1 <= blocksize)%Z as Hb by (destruct words; [contradiction | simpl in Hfit; lia]).
  destruct (count_freqs_by_blocks_matrix words (vocabulary words) blocksize Hb)
    as (rows & Hrun & Hlen & Hwidth & Hrows).
  { intros x Hx. apply vocabulary_In. exact Hx. }
  assert (Py.range_len 0 (Z.of_nat (length words)) blocksize = 1) as Hone.
  { apply Nat2Z.inj. rewrite range_len_ceil by lia.
    pose proof (ceil_div_bounds (Z.of_nat (length words)) blocksize ltac:(lia)).
    destruct words; [contradiction|]. simpl length in *. nia. }
  rewrite Hone in Hlen, Hrows.
  destruct rows as [|row [|]]; try discriminate.
  exists row. split; [exact Hrun|].
  simpl in Hrows. apply Forall2_cons_1 in Hrows. destruct Hrows as [(Hl & _ & Hcol) _].
  split; [exact Hl|].
  rewrite observed_entropy_terms. simpl.
  apply zip_with_observed_term_diag.
  apply Forall_lookup. intros j c Hc. apply Hdiv.
  destruct (lookup_lt_is_Some_2 (vocabulary words) j) as (w & Hw).
  { rewrite <- Hl. eapply lookup_lt_Some. exact Hc. }
  rewrite (Hcol (vocabulary_NoDup words) j w Hw) in Hc. injection Hc as <-.
  assert (block_at words (Z.to_nat blocksize) 0 = words) as ->.
  { unfold block_at. simpl. apply firstn_all2. lia. }
  assert (In w words) as Hin.
  { apply vocabulary_In, list_elem_of_In. eapply list_elem_of_lookup_2. exact Hw. }
  apply (count_occ_In string_dec) in Hin.
  pose proof (count_occ_bound string_dec w words). lia.
Qed.

End Scores.

(** * The cache of the analytic entropy, and the formats *)

Section CacheContents.
Context {M : Libm}.
Variables blocksize n_blocks n_words : Z.

(** The cache after a run of the ufunc: an entry that was there stays as
    it was, and the totals that had none have the computed value. *)
Lemma analytic_from_lookup (totals : list Z) (cache : gmap Z float) (k : Z) :
  (analytic_from blocksize n_blocks n_words cache totals).2 !! k =
    match cache !! k with
    | Some v => Some v
    | None =>
        if bool_decide (k ∈ totals)
        then Some (analytic_entropy_compute blocksize n_blocks n_words k)
        else None
    end.
Proof using Type.
  revert cache. induction totals as [|n totals IH]; intros cache.
  - change ((analytic_from blocksize n_blocks n_words cache []).2) with cache.
    destruct (cache !! k); [reflexivity|].
    rewrite bool_decide_eq_false_2 by apply not_elem_of_nil. reflexivity.
  - change ((analytic_from blocksize n_blocks n_words cache (n :: totals)).2) with
      ((analytic_from blocksize n_blocks n_words
          (analytic_entropy blocksize n_blocks n_words cache n).2 totals).2).
    rewrite IH. unfold analytic_entropy.
    destruct (cache !! n) as [v|] eqn:Hn; cbn [snd].
    + destruct (cache !! k) as [v'|] eqn:Hk; [reflexivity|].
      assert (k <> n) as Hne by congruence.
      destruct (decide (k ∈ totals)) as [Hin|Hnin].
      * rewrite !bool_decide_eq_true_2; [reflexivity | | exact Hin].
        apply elem_of_cons. auto.
      * rewrite !bool_decide_eq_false_2; [reflexivity | | exact Hnin].
        rewrite elem_of_cons. tauto.
    + destruct (decide (k = n)) as [->|Hne].
      * rewrite lookup_insert_eq, Hn.
        rewrite bool_decide_eq_true_2 by (apply elem_of_cons; auto). reflexivity.
      * rewrite lookup_insert_ne by congruence.
        destruct (cache !! k) as [v'|]; [reflexivity|].
        destruct (decide (k ∈ totals)) as [Hin|Hnin].
        -- rewrite !bool_decide_eq_true_2; [reflexivity | | exact Hin].
           apply elem_of_cons. auto.
        -- rewrite !bool_decide_eq_false_2; [reflexivity | | exact Hnin].
           rewrite elem_of_cons. tauto.
Qed.

(** X23. After the ufunc of a fresh closure has run over [totals], the
    cache holds the special case [1: 0.0], untouched, one entry for each
    other total, with the value that lines 142 to 146 compute for it, and
    nothing else. *)
Theorem analytic_cache_contents (totals : list Z) (k : Z) :
  (analytic_from blocksize n_blocks n_words cache0 totals).2 !! k =
    if (k =? 1)%Z then Some 0%float
    else if in_dec Z.eq_dec k totals
         then Some (analytic_entropy_compute blocksize n_blocks n_words k)
         else None.
Proof using Type.
  rewrite analytic_from_lookup. unfold cache0.
  destruct (Z.eqb_spec k 1) as [->|Hne].
  - rewrite lookup_singleton_eq. reflexivity.
  - rewrite lookup_singleton_ne by congruence.
    destruct (in_dec Z.eq_dec k totals) as [Hin|Hnin].
    + rewrite bool_decide_eq_true_2 by (apply list_elem_of_In; exact Hin). reflexivity.
    + rewrite bool_decide_eq_false_2 by (rewrite list_elem_of_In; exact Hnin). reflexivity.
Qed.

End CacheContents.

Section FormatsAgree.
Context {M : Libm}.

(** X24. The three formats show the same ranking: when [mz_keywords]
    returns the pairs [l] with scores, whatever [split] is, then for the
    same text and arguments it returns the words of [l], in the same
    order, as a list with [split], and joined by newlines without. *)
Theorem mz_keywords_formats_agree
    (tokenize : string -> list string) (text : string) (blocksize : Z)
    (split weighted : bool) (threshold : threshold_arg) (l : list (string * float)) :
  mz_keywords tokenize text blocksize true split weighted threshold = Return (Scored l) ->
  mz_keywords tokenize text blocksize false true weighted threshold
    = Return (Words (map fst l)) /\
  mz_keywords tokenize text blocksize false false weighted threshold
    = Return (Joined (Py.join (String newline EmptyString) (map fst l))).
Proof.
  unfold mz_keywords. intros H.
  pose proof H as Hrun.
  apply mz_keywords_words_Return in H.
  destruct H as (Hb & Hne & rows & Hrows & Hlen & Hout).
  pose proof (mz_keywords_words_converts _ _ _ _ _ _ _ _ Hrun Hrows) as Hconv.
  simpl in Hout. injection Hout as ->.
  split.
  - destruct (mz_keywords_words_runs (tokenize text) blocksize false true weighted
                threshold Hne Hb) as (rows' & Hrows' & _ & ->).
    assert (rows' = rows) as -> by congruence. rewrite Hconv, Hlen. reflexivity.
  - destruct (mz_keywords_words_runs (tokenize text) blocksize false false weighted
                threshold Hne Hb) as (rows' & Hrows' & _ & ->).
    assert (rows' = rows) as -> by congruence. rewrite Hconv, Hlen. reflexivity.
Qed.

(** X25. No score that [mz_keywords] returns is [nan]: a [nan] exceeds no
    threshold. *)
Theorem mz_keywords_no_nan_score
    (tokenize : string -> list string) (text : string) (blocksize : Z)
    (split weighted : bool) (threshold : threshold_arg) (l : list (string * float)) :
  mz_keywords tokenize text blocksize true split weighted threshold = Return (Scored l) ->
  Forall (fun ws => PrimFloat.is_nan ws.2 = false) l.
Proof.
  unfold mz_keywords. intros H.
  apply mz_keywords_words_Return in H.
  destruct H as (_ & _ & rows & _ & _ & Hout).
  simpl in Hout. injection Hout as ->.
  eapply List.Forall_impl; [|apply select_above].
  intros ws Hws. apply ltb_rank_r in Hws.
  destruct (PrimFloat.is_nan ws.2) eqn:Hn; [|reflexivity].
  exfalso. apply Hws. apply is_nan_spec in Hn. unfold rank. rewrite Hn. reflexivity.
Qed.

End FormatsAgree.

(** ** Worked cases of the further properties *)

(** A negative [blocksize]: no row, and the token outside the empty
    vocabulary goes unnoticed. *)
Lemma count_freqs_by_blocks_negative_blocksize_example :
  count_freqs_by_blocks ["a"]%string [] (-1) = Return [].
Proof.
  apply (count_freqs_by_blocks_negative_blocksize ["a"]%string [] (-1)). lia.
Defined.

(** Five tokens cut every two: each entry counts a word in a block. *)
Lemma count_freqs_by_blocks_entries_example :
  exists rows,
    count_freqs_by_blocks ["b"; "a"; "c"; "a"; "a"]%string ["a"; "b"; "c"]%string 2
      = Return rows /\
    forall k r j w, rows !! k = Some r -> ["a"; "b"; "c"]%string !! j = Some w ->
      r !! j = Some (Z.of_nat (count_occ string_dec
                                 (block_at ["b"; "a"; "c"; "a"; "a"]%string
                                    (Z.to_nat 2) k) w)).
Proof.
  apply (count_freqs_by_blocks_entries
           ["b"; "a"; "c"; "a"; "a"]%string ["a"; "b"; "c"]%string 2).
  - lia.
  - repeat constructor; simpl; intuition discriminate.
  - simpl. intuition.
Defined.

(** The vocabulary lists "a" twice: column 0 stays at 0. *)
Lemma count_freqs_by_blocks_repeated_word_example :
  Forall (fun r : list Z => r !! 0 = Some 0%Z) [[0; 1]]%Z.
Proof.
  apply (count_freqs_by_blocks_repeated_word
           ["a"]%string ["a"; "a"]%string 2 [[0; 1]]%Z 0 1 "a"%string).
  - vm_compute. reflexivity.
  - reflexivity.
  - reflexivity.
  - lia.
Defined.

Lemma mz_keywords_totals_example :
  exists rows,
    count_freqs_by_blocks ["b"; "a"; "c"; "a"; "a"]%string
      (vocabulary ["b"; "a"; "c"; "a"; "a"]%string) 2 = Return rows /\
    sum_axis0 Z.add rows =
      map (fun w => Z.of_nat (count_occ string_dec ["b"; "a"; "c"; "a"; "a"]%string w))
          (vocabulary ["b"; "a"; "c"; "a"; "a"]%string).
Proof.
  apply (mz_keywords_totals ["b"; "a"; "c"; "a"; "a"]%string 2).
  - discriminate.
  - lia.
Defined.

Lemma n_words_is_number_of_tokens_example :
  exists rows,
    count_freqs_by_blocks ["b"; "a"; "c"; "a"; "a"]%string ["a"; "b"; "c"]%string 2
      = Return rows /\
    np_sum Z.add 0%Z (sum_axis0 Z.add rows) = 5%Z.
Proof.
  apply (n_words_is_number_of_tokens
           ["b"; "a"; "c"; "a"; "a"]%string ["a"; "b"; "c"]%string 2).
  - lia.
  - simpl. intuition.
Defined.

(** The same words in another order and number: the same vocabulary. *)
Lemma vocabulary_of_same_words_example :
  vocabulary ["b"; "a"; "b"]%string = vocabulary ["a"; "b"]%string.
Proof.
  apply (proj2 (vocabulary_of_same_words ["b"; "a"; "b"]%string ["a"; "b"]%string)).
  intros w. simpl. intuition.
Defined.


(** The text "b a c" with [blocksize] 1 and the threshold [-1]: the three
    words have the score [0.0] and are all returned. *)
Lemma mz_keywords_distinct_words_of_text_example :
  List.NoDup ["a"; "b"; "c"]%string /\
  forall w, In w ["a"; "b"; "c"]%string -> In w ["b"; "a"; "c"]%string.
Proof.
  apply (mz_keywords_distinct_words_of_text (M := numpy_table)
           (fun _ => ["b"; "a"; "c"]%string) "b a c"%string 1 true (Numeric (-1))).
  vm_compute. reflexivity.
Defined.

Lemma mz_keywords_selects_exactly_example :
  exists rows,
    count_freqs_by_blocks ["b"; "a"; "c"]%string (vocabulary ["b"; "a"; "c"]%string) 1
      = Return rows /\
    forall w s,
      In (w, s) [("a", 0); ("b", 0); ("c", 0)]%string%float <->
      (exists j, vocabulary ["b"; "a"; "c"]%string !! j = Some w /\
                 entropy_scores rows 1 true !! j = Some s) /\
      PrimFloat.ltb (resolve_threshold (Numeric (-1)) (Z.of_nat (length rows))) s = true.
Proof.
  apply (mz_keywords_selects_exactly (M := numpy_table)
           (fun _ => ["b"; "a"; "c"]%string) "b a c"%string 1 false true (Numeric (-1))).
  vm_compute. reflexivity.
Defined.

(** From the threshold [-1] to the threshold [0.0]: the three words of
    score [0.0] go. *)
Lemma mz_keywords_threshold_monotone_example :
  [] = List.filter (fun ws : string * float => PrimFloat.ltb 0 ws.2)
         [("a", 0); ("b", 0); ("c", 0)]%string%float.
Proof.
  apply (mz_keywords_threshold_monotone (M := numpy_table)
           (fun _ => ["b"; "a"; "c"]%string) "b a c"%string 1 false true (-1) 0).
  - reflexivity.
  - vm_compute. reflexivity.
  - vm_compute. reflexivity.
Defined.

Lemma blocks_of_two (k : nat) :
  Permutation (block_at ["b"; "a"; "c"; "a"]%string (Z.to_nat 2) k)
              (block_at ["a"; "b"; "a"; "c"]%string (Z.to_nat 2) k).
Proof.
  destruct k as [|[|k]].
  - apply perm_swap.
  - apply perm_swap.
  - unfold block_at. rewrite !skipn_all2 by (simpl; lia). constructor.
Qed.

(** The tokens of each block of two in the other order. *)
Lemma count_freqs_by_blocks_order_within_blocks_example :
  count_freqs_by_blocks ["b"; "a"; "c"; "a"]%string ["a"; "b"; "c"]%string 2 =
  count_freqs_by_blocks ["a"; "b"; "a"; "c"]%string ["a"; "b"; "c"]%string 2.
Proof.
  apply (count_freqs_by_blocks_order_within_blocks
           ["b"; "a"; "c"; "a"]%string ["a"; "b"; "a"; "c"]%string
           ["a"; "b"; "c"]%string 2).
  - lia.
  - exact blocks_of_two.
Defined.

Lemma mz_keywords_order_within_blocks_example :
  mz_keywords (fun text => if String.eqb text "b a c a" then ["b"; "a"; "c"; "a"]
                           else ["a"; "b"; "a"; "c"])%string
    "b a c a"%string 2 true false true (Numeric 0) =
  mz_keywords (fun text => if String.eqb text "b a c a" then ["b"; "a"; "c"; "a"]
                           else ["a"; "b"; "a"; "c"])%string
    "a b a c"%string 2 true false true (Numeric 0).
Proof.
  apply (mz_keywords_order_within_blocks (M := numpy_table)
           (fun text => if String.eqb text "b a c a" then ["b"; "a"; "c"; "a"]
                        else ["a"; "b"; "a"; "c"])%string
           "b a c a"%string "a b a c"%string 2 true false true (Numeric 0)).
  - lia.
  - exact blocks_of_two.
Defined.

Lemma mz_keywords_one_score_per_word_example :
  exists rows,
    count_freqs_by_blocks ["b"; "a"; "c"; "a"; "a"]%string
      (vocabulary ["b"; "a"; "c"; "a"; "a"]%string) 2 = Return rows /\
    length (entropy_scores rows 2 true)
    = length (vocabulary ["b"; "a"; "c"; "a"; "a"]%string).
Proof.
  apply (mz_keywords_one_score_per_word (M := numpy_table)
           ["b"; "a"; "c"; "a"; "a"]%string 2 true).
  - discriminate.
  - lia.
Defined.

(** "b" occurs once among five tokens. *)
Lemma hapax_unweighted_score_is_zero_example :
  exists rows j,
    count_freqs_by_blocks ["b"; "a"; "c"; "a"; "a"]%string
      (vocabulary ["b"; "a"; "c"; "a"; "a"]%string) 2 = Return rows /\
    vocabulary ["b"; "a"; "c"; "a"; "a"]%string !! j = Some "b"%string /\
    entropy_scores rows 2 false !! j = Some 0%float.
Proof.
  apply (hapax_unweighted_score_is_zero (M := numpy_table) eq_refl
           ["b"; "a"; "c"; "a"; "a"]%string 2 "b"%string).
  - lia.
  - reflexivity.
Defined.

Lemma hapax_is_no_keyword_example : ~ In "a"%string [].
Proof.
  apply (hapax_is_no_keyword (M := numpy_table) eq_refl
           (fun _ => ["b"; "a"; "c"]%string) "b a c"%string 1 true 0 "a"%string []).
  - reflexivity.
  - reflexivity.
  - vm_compute. reflexivity.
Defined.

(** Three tokens in one block of five. *)
Lemma single_block_observed_entropy_example :
  exists row,
    count_freqs_by_blocks ["b"; "a"; "a"]%string (vocabulary ["b"; "a"; "a"]%string) 5
      = Return [row] /\
    length row = length (vocabulary ["b"; "a"; "a"]%string) /\
    observed_entropy [row] (sum_axis0 Z.add [row]) = map (fun _ => 0%float) row.
Proof.
  apply (single_block_observed_entropy (M := numpy_table) eq_refl
           ["b"; "a"; "a"]%string 5).
  - discriminate.
  - simpl. lia.
  - intros n Hn. simpl in Hn.
    assert (n = 1 \/ n = 2 \/ n = 3)%Z as [-> | [-> | ->]] by lia; reflexivity.
Defined.

Lemma mz_keywords_formats_agree_example :
  mz_keywords (fun _ => ["b"; "a"; "c"]%string) "b a c"%string 1 false true true
    (Numeric (-1))
    = Return (Words (map fst [("a", 0); ("b", 0); ("c", 0)]%string%float)) /\
  mz_keywords (fun _ => ["b"; "a"; "c"]%string) "b a c"%string 1 false false true
    (Numeric (-1))
    = Return (Joined (Py.join (String newline EmptyString)
                        (map fst [("a", 0); ("b", 0); ("c", 0)]%string%float))).
Proof.
  apply (mz_keywords_formats_agree (M := numpy_table)
           (fun _ => ["b"; "a"; "c"]%string) "b a c"%string 1 false true (Numeric (-1))).
  vm_compute. reflexivity.
Defined.

Lemma mz_keywords_no_nan_score_example :
  Forall (fun ws : string * float => PrimFloat.is_nan ws.2 = false)
    [("a", 0); ("b", 0); ("c", 0)]%string%float.
Proof.
  apply (mz_keywords_no_nan_score (M := numpy_table)
           (fun _ => ["b"; "a"; "c"]%string) "b a c"%string 1 false true (Numeric (-1))).
  vm_compute. reflexivity.
Defined.
